(** * goblin / gremlin_python_driver / driver.py

    A shallow embedding of the asynchronous Gremlin Server driver
    ([Driver], [Connection], [AsyncResponseIter]) and the properties of
    its connection pool, its wire framing and its response iterator.

    Conventions of the embedding.
    - Python objects live in a store and are named by references, so
      that a [Connection] held by the pool's deque, by a response
      iterator and by the caller is one object.
    - A Python [int] is a [Z].  A Python [str] is a [string] whose
      characters are the code points U+0000 .. U+00FF of the text.
    - A coroutine is a state transformer that returns a value or raises.
      The transport (aiohttp) is an injected collaborator: the outcome
      of [ws_connect] is an argument of [Driver_connect], and the frames a
      peer sends are the [inbox] of the socket. *)

From Stdlib Require Import ZArith Lia Strings.Byte Strings.String Strings.Ascii.
From Stdlib Require Import DecimalString.
From stdpp Require Import base option list strings gmap.

Local Open Scope string_scope.
Local Open Scope Z_scope.
Local Set Warnings "-register-all".

(** ** Values *)

(** Object identity. *)
Definition ref := nat.

(** The JSON documents the driver builds and receives (the values of
    [json.loads] / the arguments of [json.dumps]). *)
Inductive json : Type :=
| JNull
| JBool (b : bool)
| JInt (z : Z)
| JStr (s : string)
| JList (l : list json)
| JDict (l : list (string * json)).

(** The exceptions the module can raise. [DanglingRef] is not a Python
    exception: it marks a store in which a reference names no object,
    which no Python execution produces. *)
Inductive exn : Type :=
| RuntimeError (msg : string)
| ValueError (msg : string)
| AttributeError (msg : string)
| UnboundLocalError (var : string)
| NameError (name : string)
| KeyError (key : string)
| TypeError (msg : string)
| TransportError (msg : string)
| StopAsyncIteration
| DanglingRef (r : ref).

Inductive outcome (A : Type) : Type :=
| Ok (a : A)
| Raise (e : exn).
Arguments Ok {A} a.
Arguments Raise {A} e.

(** The names the specification gives to the driver's failures. *)
Definition PoolExhausted : exn := RuntimeError "To many connections, try recycling".
Definition UnsupportedEncoding : exn := ValueError "Unknown mime type.".
Definition InvalidRequest : exn := RuntimeError "session processor requires a session id".

(** ** A state and exception monad

    A raised exception keeps the mutations made before it, as in Python. *)
Definition M (S A : Type) : Type := S -> outcome A * S.

Definition ret {S A} (a : A) : M S A := fun s => (Ok a, s).
Definition raise {S A} (e : exn) : M S A := fun s => (Raise e, s).
Definition bind {S A B} (m : M S A) (k : A -> M S B) : M S B :=
  fun s => match m s with
           | (Ok a, s') => k a s'
           | (Raise e, s') => (Raise e, s')
           end.
Definition gets {S A} (f : S -> A) : M S A := fun s => (Ok (f s), s).
Definition modify {S} (f : S -> S) : M S unit := fun s => (Ok tt, f s).

Notation "x <- m ;; k" := (bind m (fun x => k))
  (at level 100, m at next level, right associativity).
Notation "m ;;; k" := (bind m (fun _ => k))
  (at level 100, right associativity).

(** [try: body finally: fin]. *)
Definition try_finally {S A} (body : M S A) (fin : M S unit) : M S A :=
  fun s => let '(r, s1) := body s in
           match fin s1 with
           | (Ok _, s2) => (r, s2)
           | (Raise e, s2) => (Raise e, s2)
           end.

(** ** Objects *)

(** A decoded response body, [{status: {code, message}, result: {data,
    meta}}], as the namedtuple [Message] of lines 14-16 holds it after
    the decoding of lines 164-168. *)
Module Message.
Record t : Type := mk {
  status_code : Z;
  data : json;
  message : string;
  metadata : json
}.
End Message.

(** The websocket of the transport: the frames the peer will send, what
    was sent to it, and whether it was closed. *)
Module WebSocket.
Record t : Type := mk {
  closed : bool;
  inbox : list Message.t;
  outbox : list (list byte)
}.
End WebSocket.

Module Driver.
Record t : Type := mk {
  _reclaimed : list ref;
  _open_connections : Z;
  _inflight_messages : Z;
  _connecting : Z;
  _max_connections : Z;
  _max_inflight_messages : Z
}.

Definition total_connections (d : t) : Z := _connecting d + _open_connections d.
Definition max_connections (d : t) : Z := _max_connections d.

Definition set_reclaimed (q : list ref) (d : t) : t :=
  mk q (_open_connections d) (_inflight_messages d) (_connecting d)
     (_max_connections d) (_max_inflight_messages d).
Definition add_open_connections (k : Z) (d : t) : t :=
  mk (_reclaimed d) (_open_connections d + k) (_inflight_messages d) (_connecting d)
     (_max_connections d) (_max_inflight_messages d).
Definition add_connecting (k : Z) (d : t) : t :=
  mk (_reclaimed d) (_open_connections d) (_inflight_messages d) (_connecting d + k)
     (_max_connections d) (_max_inflight_messages d).

(** [Driver.__init__]. *)
Definition __init__ : t :=
  mk [] 0 0 0 32 128.
End Driver.

Module Connection.
Record t : Type := mk {
  _ws : ref;
  _force_close : bool;
  _recycle : bool;
  _driver : option ref;
  _username : option string;
  _password : option string;
  _closed : bool
}.

Definition set_closed (b : bool) (c : t) : t :=
  mk (_ws c) (_force_close c) (_recycle c) (_driver c) (_username c) (_password c) b.
Definition set_driver (d : option ref) (c : t) : t :=
  mk (_ws c) (_force_close c) (_recycle c) d (_username c) (_password c) (_closed c).

(** [Connection.__init__], with its keyword defaults made explicit by
    the caller. *)
Definition __init__ (ws : ref) (force_close recycle : bool) (driver : option ref)
    (username password : option string) : t :=
  mk ws force_close recycle driver username password false.
End Connection.

(** The store. *)
Record World : Type := mkWorld {
  drivers : gmap ref Driver.t;
  conns : gmap ref Connection.t;
  sockets : gmap ref WebSocket.t;
  next_ref : ref
}.

Definition empty_world : World := mkWorld ∅ ∅ ∅ 0%nat.

Definition set_drivers (f : gmap ref Driver.t -> gmap ref Driver.t) (w : World) : World :=
  mkWorld (f (drivers w)) (conns w) (sockets w) (next_ref w).
Definition set_conns (f : gmap ref Connection.t -> gmap ref Connection.t) (w : World) : World :=
  mkWorld (drivers w) (f (conns w)) (sockets w) (next_ref w).
Definition set_sockets (f : gmap ref WebSocket.t -> gmap ref WebSocket.t) (w : World) : World :=
  mkWorld (drivers w) (conns w) (f (sockets w)) (next_ref w).

Definition from_store {A} (o : option A) (r : ref) : M World A :=
  match o with
  | Some a => ret a
  | None => raise (DanglingRef r)
  end.

Definition get_driver (r : ref) : M World Driver.t :=
  fun w => from_store (drivers w !! r) r w.
Definition get_conn (r : ref) : M World Connection.t :=
  fun w => from_store (conns w !! r) r w.
Definition get_socket (r : ref) : M World WebSocket.t :=
  fun w => from_store (sockets w !! r) r w.

(** In-place update of an attribute of a stored object. *)
Definition upd_driver (r : ref) (f : Driver.t -> Driver.t) : M World unit :=
  d <- get_driver r ;; modify (set_drivers (insert r (f d))).
Definition upd_conn (r : ref) (f : Connection.t -> Connection.t) : M World unit :=
  c <- get_conn r ;; modify (set_conns (insert r (f c))).
Definition upd_socket (r : ref) (f : WebSocket.t -> WebSocket.t) : M World unit :=
  s <- get_socket r ;; modify (set_sockets (insert r (f s))).

Definition new_driver (d : Driver.t) : M World ref :=
  fun w => (Ok (next_ref w),
            mkWorld (<[next_ref w := d]> (drivers w)) (conns w) (sockets w) (S (next_ref w))).
Definition new_conn (c : Connection.t) : M World ref :=
  fun w => (Ok (next_ref w),
            mkWorld (drivers w) (<[next_ref w := c]> (conns w)) (sockets w) (S (next_ref w))).
Definition new_socket (s : WebSocket.t) : M World ref :=
  fun w => (Ok (next_ref w),
            mkWorld (drivers w) (conns w) (<[next_ref w := s]> (sockets w)) (S (next_ref w))).

(** ** The transport *)

(** What [client_session.ws_connect(url)] does on one call: it returns a
    websocket, on which the peer will send [frames], or it raises. *)
Inductive connect_result : Type :=
| WsOpened (frames : list Message.t)
| WsFailed (e : exn).

Definition ws_connect (net : connect_result) : M World ref :=
  match net with
  | WsOpened frames => new_socket (WebSocket.mk false frames [])
  | WsFailed e => raise e
  end.

(** [await ws.close()]. *)
Definition ws_close (ws : ref) : M World unit :=
  upd_socket ws (fun s => WebSocket.mk true (WebSocket.inbox s) (WebSocket.outbox s)).

(** [ws.send_bytes(message)]. *)
Definition ws_send_bytes (ws : ref) (message : list byte) : M World unit :=
  upd_socket ws (fun s =>
    WebSocket.mk (WebSocket.closed s) (WebSocket.inbox s) (WebSocket.outbox s ++ [message])).

(** ** Connection.close (lines 248-252) *)

(** [self.driver._open_connections -= 1]: with [self.driver] being [None]
    the attribute access raises. *)
Definition Connection_close (self : ref) : M World unit :=
  c <- get_conn self ;;
  ws_close (Connection._ws c) ;;;
  upd_conn self (Connection.set_closed true) ;;;
  match Connection._driver c with
  | None => raise (AttributeError "'NoneType' object has no attribute '_open_connections'")
  | Some d =>
      upd_driver d (Driver.add_open_connections (-1)) ;;;
      upd_conn self (Connection.set_driver None)
  end.

(** ** Driver (lines 19-102) *)

(** [Driver.connect] (lines 49-60). *)
Definition Driver_connect (self : ref) (force_close recycle : bool)
    (net : connect_result) : M World ref :=
  d <- get_driver self ;;
  if Driver.total_connections d <=? Driver._max_connections d then
    upd_driver self (Driver.add_connecting 1) ;;;
    try_finally
      (ws <- ws_connect net ;;
       upd_driver self (Driver.add_open_connections 1) ;;;
       new_conn (Connection.__init__ ws force_close recycle (Some self) None None))
      (upd_driver self (Driver.add_connecting (-1)))
  else
    raise (RuntimeError "To many connections, try recycling").

(** The [while self._reclaimed:] loop of [Driver.recycle] (lines 64-72);
    [q] is the content of [self._reclaimed] and [conn] the local variable,
    [None] while it is unbound. *)
Fixpoint recycle_loop (self : ref) (q : list ref) (conn : option ref)
    : M World (option ref) :=
  match q with
  | [] => ret conn
  | c :: q' =>
      upd_driver self (Driver.set_reclaimed q') ;;;
      x <- get_conn c ;;
      if negb (Connection._closed x) then ret (Some c)
      else
        upd_driver self (Driver.add_open_connections (-1)) ;;;
        recycle_loop self q' (Some c)
  end.

(** [Driver.recycle] (lines 62-77). *)
Definition Driver_recycle (self : ref) (force_close recycle : bool)
    (net : connect_result) : M World ref :=
  d <- get_driver self ;;
  conn <- match Driver._reclaimed d with
          | _ :: _ => recycle_loop self (Driver._reclaimed d) None
          | [] =>
              if Driver.total_connections d <? Driver.max_connections d then
                c <- Driver_connect self force_close recycle net ;; ret (Some c)
              else ret None
          end ;;
  match conn with
  | Some c => ret c
  | None => raise (UnboundLocalError "conn")
  end.

(** [Driver.reclaim] (lines 79-93). *)
Definition Driver_reclaim (self : ref) (conn : ref) : M World unit :=
  d <- get_driver self ;;
  c <- get_conn conn ;;
  if Driver.total_connections d <=? Driver.max_connections d then
    if Connection._closed c then
      upd_driver self (Driver.add_open_connections (-1))
    else
      upd_driver self (fun d => Driver.set_reclaimed (Driver._reclaimed d ++ [conn]) d)
  else
    if bool_decide (Connection._driver c = Some self) then
      Connection_close conn ;;;
      upd_driver self (Driver.add_open_connections (-1))
    else ret tt.

(** [Connection.reclaim] (lines 219-221). *)
Definition Connection_reclaim (self : ref) : M World unit :=
  c <- get_conn self ;;
  match Connection._driver c with
  | Some d => Driver_reclaim d self
  | None => ret tt
  end.

(** ** Text and JSON encoding (the standard library's part) *)

Definition byte_of_N (n : N) : byte := byte_of_ascii (ascii_of_N n).

(** [s.encode("utf-8")] on code points below U+0100: one byte below
    U+0080, two bytes from there on. *)
Definition utf8_char (a : ascii) : list byte :=
  let n := N_of_ascii a in
  if (n <? 128)%N then [byte_of_ascii a]
  else [byte_of_N (192 + n / 64); byte_of_N (128 + n mod 64)].

Definition encode_utf8 (s : string) : list byte :=
  flat_map utf8_char (list_ascii_of_string s).

Definition chr (n : N) : string := String (ascii_of_N n) EmptyString.

Definition hex_digit (n : N) : string :=
  if (n <? 10)%N then chr (48 + n) else chr (87 + n).

(** One character of a JSON string literal, as [json.dumps] writes it
    with [ensure_ascii] on. *)
Definition json_escape_char (a : ascii) : string :=
  let n := N_of_ascii a in
  if (n =? 34)%N then chr 92 +:+ chr 34
  else if (n =? 92)%N then chr 92 +:+ chr 92
  else if (n =? 10)%N then chr 92 +:+ "n"
  else if (n =? 13)%N then chr 92 +:+ "r"
  else if (n =? 9)%N then chr 92 +:+ "t"
  else if (n =? 8)%N then chr 92 +:+ "b"
  else if (n =? 12)%N then chr 92 +:+ "f"
  else if ((n <? 32) || (126 <? n))%N
       then chr 92 +:+ "u00" +:+ hex_digit (n / 16) +:+ hex_digit (n mod 16)
  else String a EmptyString.

Fixpoint json_escape (s : string) : string :=
  match s with
  | EmptyString => EmptyString
  | String a s' => json_escape_char a +:+ json_escape s'
  end.

Definition json_quote (s : string) : string := chr 34 +:+ json_escape s +:+ chr 34.

Definition decimal (z : Z) : string := DecimalString.NilZero.string_of_int (Z.to_int z).

(** [json.dumps] with its default separators; a [dict] is written in
    insertion order. *)
Fixpoint json_dumps (j : json) : string :=
  match j with
  | JNull => "null"
  | JBool true => "true"
  | JBool false => "false"
  | JInt z => decimal z
  | JStr s => json_quote s
  | JList l =>
      "[" +:+
      (fix items (first : bool) (l : list json) : string :=
         match l with
         | [] => ""
         | x :: l' => (if first then "" else ", ") +:+ json_dumps x +:+ items false l'
         end) true l
      +:+ "]"
  | JDict l =>
      "{" +:+
      (fix items (first : bool) (l : list (string * json)) : string :=
         match l with
         | [] => ""
         | (k, v) :: l' =>
             (if first then "" else ", ") +:+ json_quote k +:+ ": " +:+ json_dumps v
             +:+ items false l'
         end) true l
      +:+ "}"
  end.

(** [d.update({k: v})] on a dict in insertion order. *)
Fixpoint dict_update (k : string) (v : json) (d : list (string * json))
    : list (string * json) :=
  match d with
  | [] => [(k, v)]
  | (k', v') :: d' =>
      if String.eqb k' k then (k', v) :: d' else (k', v') :: dict_update k v d'
  end.

(** ** The request codec (lines 254-302) *)

(** The request dict the driver builds: its four keys are fixed by the
    code, [args] is the inner dict. *)
Module Request.
Record t : Type := mk {
  requestId : string;
  op : string;
  processor : string;
  args : list (string * json)
}.

Definition set_args (a : list (string * json)) (m : t) : t :=
  mk (requestId m) (op m) (processor m) a.
End Request.

Definition request_json (m : Request.t) : json :=
  JDict [("requestId", JStr (Request.requestId m)); ("op", JStr (Request.op m));
         ("processor", JStr (Request.processor m)); ("args", JDict (Request.args m))].

(** [Connection._set_message_header] (lines 295-302). *)
Definition _set_message_header {S} (message : string) (mime_type : string)
    : M S (list byte) :=
  if String.eqb mime_type "application/json" then
    let mime_len := [x10] in
    let mime_type := list_byte_of_string "application/json" in
    ret (mime_len ++ mime_type ++ encode_utf8 message)%list
  else
    raise (ValueError "Unknown mime type.").

(** The dict update of [Connection._finalize_message] (lines 287-291). *)
Definition finalize_args {S} (message : Request.t) (processor : string)
    (session : option string) : M S Request.t :=
  if String.eqb processor "session" then
    match session with
    | None => raise (RuntimeError "session processor requires a session id")
    | Some sid =>
        ret (Request.set_args
               (dict_update "session" (JStr sid) (Request.args message)) message)
    end
  else ret message.

(** [Connection._finalize_message] (lines 286-293). *)
Definition _finalize_message {S} (message : Request.t) (processor : string)
    (session : option string) : M S (list byte) :=
  message <- finalize_args message processor session ;;
  let message := json_dumps (request_json message) in
  _set_message_header message "application/json".

(** The dict literal of [Connection._prepare_message] (lines 258-268). *)
Definition eval_request (gremlin : string) (bindings : json) (lang : string)
    (aliases : json) (op processor request_id : string) : Request.t :=
  Request.mk request_id op processor
    [("gremlin", JStr gremlin); ("bindings", bindings);
     ("language", JStr lang); ("aliases", aliases)].

(** [Connection._prepare_message] (lines 254-270); [uuid4] is the text
    of the identifier [uuid.uuid4()] draws on this call. *)
Definition _prepare_message {S} (gremlin : string) (bindings : json) (lang : string)
    (aliases : json) (op processor : string) (session : option string)
    (request_id : option string) (uuid4 : string) : M S (list byte) :=
  let request_id := match request_id with
                    | None => uuid4
                    | Some r => r
                    end in
  let message := eval_request gremlin bindings lang aliases op processor request_id in
  _finalize_message message processor session.

(** The names bound at module level: the imports of lines 2-8 and the
    definitions of the module.  [base64] is not among them. *)
Definition module_globals : list string :=
  ["asyncio"; "collections"; "json"; "logging"; "uuid"; "aiohttp"; "logger";
   "Message"; "Driver"; "AsyncDriverConnectionContextManager";
   "AsyncResponseIter"; "Connection"].

Definition global_name {S} (name : string) : M S unit :=
  if existsb (String.eqb name) module_globals then ret tt
  else raise (NameError name).

Definition str_encode {S} (s : option string) : M S (list byte) :=
  match s with
  | Some s => ret (encode_utf8 s)
  | None => raise (AttributeError "'NoneType' object has no attribute 'encode'")
  end.

(** [Connection._authenticate] (lines 272-284), up to the evaluation of
    [base64.b64encode], where the name [base64] is looked up. *)
Definition Connection__authenticate {S} (username password : option string)
    (processor : string) (session : option string) : M S (list byte) :=
  u <- str_encode username ;;
  p <- str_encode password ;;
  let auth := ([x00] ++ u ++ [x00] ++ p)%list in
  global_name "base64" ;;;
  ret auth.

(** ** AsyncResponseIter (lines 122-188) *)

Module AsyncResponseIter.
Record t : Type := mk {
  _ws : ref;
  _conn : option ref;
  _username : option string;
  _password : option string;
  _processor : string;
  _session : option string;
  _force_close : bool;
  _recycle : bool;
  _closed : bool;
  _response_queue : list (option Message.t)
}.

Definition set_conn (c : option ref) (i : t) : t :=
  mk (_ws i) c (_username i) (_password i) (_processor i) (_session i)
     (_force_close i) (_recycle i) (_closed i) (_response_queue i).
Definition set_closed (b : bool) (i : t) : t :=
  mk (_ws i) (_conn i) (_username i) (_password i) (_processor i) (_session i)
     (_force_close i) (_recycle i) b (_response_queue i).
Definition set_response_queue (q : list (option Message.t)) (i : t) : t :=
  mk (_ws i) (_conn i) (_username i) (_password i) (_processor i) (_session i)
     (_force_close i) (_recycle i) (_closed i) q.

(** [AsyncResponseIter.__init__] (lines 124-135). *)
Definition __init__ (ws : ref) (conn : ref) (c : Connection.t)
    (username password : option string) (processor : string)
    (session : option string) : t :=
  mk ws (Some conn) username password processor session
     (Connection._force_close c) (Connection._recycle c) false [].
End AsyncResponseIter.

(** [Connection.submit] (lines 223-246); [bindings] is [JNull] for
    [None]. *)
Definition Connection_submit (self : ref) (gremlin : string) (bindings : json)
    (lang : string) (aliases : option json) (op processor : string)
    (session : option string) (request_id : option string) (uuid4 : string)
    : M World AsyncResponseIter.t :=
  c <- get_conn self ;;
  let aliases := match aliases with
                 | None => JDict []
                 | Some a => a
                 end in
  message <- _prepare_message gremlin bindings lang aliases op processor session
               request_id uuid4 ;;
  ws_send_bytes (Connection._ws c) message ;;;
  ret (AsyncResponseIter.__init__ (Connection._ws c) self c
         (Connection._username c) (Connection._password c) processor session).

(** The iterator is held by its one consumer: its methods transform the
    iterator together with the store. *)
Definition IterState : Type := AsyncResponseIter.t * World.

Definition lift {A} (m : M World A) : M IterState A :=
  fun '(i, w) => let '(r, w') := m w in (r, (i, w')).
Definition get_self : M IterState AsyncResponseIter.t := gets fst.
Definition upd_self (f : AsyncResponseIter.t -> AsyncResponseIter.t) : M IterState unit :=
  modify (fun '(i, w) => (f i, w)).

(** [self._response_queue.put_nowait(x)]. *)
Definition put_nowait (x : option Message.t) : M IterState unit :=
  upd_self (fun i => AsyncResponseIter.set_response_queue
                       (AsyncResponseIter._response_queue i ++ [x]) i).

(** [AsyncResponseIter.close] (lines 147-151). *)
Definition AsyncResponseIter_close : M IterState unit :=
  upd_self (AsyncResponseIter.set_closed true) ;;;
  i <- get_self ;;
  match AsyncResponseIter._conn i with
  | Some c =>
      lift (Connection_close c) ;;;
      upd_self (AsyncResponseIter.set_conn None)
  | None => ret tt
  end.

(** [AsyncResponseIter.term] (lines 183-188). *)
Definition term : M IterState unit :=
  upd_self (AsyncResponseIter.set_closed true) ;;;
  i <- get_self ;;
  if AsyncResponseIter._force_close i then AsyncResponseIter_close
  else if AsyncResponseIter._recycle i then
    match AsyncResponseIter._conn i with
    | Some c => lift (Connection_reclaim c)
    | None => raise (AttributeError "'NoneType' object has no attribute 'reclaim'")
    end
  else ret tt.

(** The attributes of an [AsyncResponseIter]: the methods of the class
    (it has no base class and no [__getattr__]) and the attributes
    [__init__] sets. *)
Definition AsyncResponseIter_attributes : list string :=
  ["__init__"; "__aiter__"; "__anext__"; "close"; "fetch_data"; "_parse_data"; "term";
   "_ws"; "_loop"; "_conn"; "_username"; "_password"; "_processor"; "_session";
   "_force_close"; "_recycle"; "_closed"; "_response_queue"].

(** The attribute lookup [self.name] on the iterator. *)
Definition getattr_self (name : string) : M IterState unit :=
  if existsb (String.eqb name) AsyncResponseIter_attributes then ret tt
  else raise (AttributeError
                ("'AsyncResponseIter' object has no attribute '" +:+ name +:+ "'")).

(** [await self._ws.receive()] with the decoding of lines 164-168: the
    next frame, or [None] when the peer sends nothing more and the
    receive stays suspended. *)
Definition ws_receive (ws : ref) : M World (option Message.t) :=
  s <- get_socket ws ;;
  match WebSocket.inbox s with
  | [] => ret None
  | f :: rest =>
      upd_socket ws (fun s => WebSocket.mk (WebSocket.closed s) rest (WebSocket.outbox s)) ;;;
      ret (Some f)
  end.

(** How a task started by [asyncio.ensure_future] ends.  An exception
    stays in the task object: nobody awaits the task. *)
Inductive task_result : Type :=
| TaskDone
| TaskRaised (e : exn)
| TaskWaiting.

(** [AsyncResponseIter._parse_data] from line 169 on, for the decoded
    [message].  In the 407 branch the lookup of [self._authenticate]
    raises, so the call and line 177 after it are not reached. *)
Definition parse_message (message : Message.t) : M IterState unit :=
  let code := Message.status_code message in
  if (code =? 200) || (code =? 206) || (code =? 204) then
    put_nowait (Some message) ;;;
    if negb (code =? 206) then
      term ;;;
      put_nowait None
    else ret tt
  else if code =? 407 then
    getattr_self "_authenticate"
  else
    term ;;;
    raise (RuntimeError (decimal code +:+ " " +:+ Message.message message)).

(** [AsyncResponseIter._parse_data] (lines 161-181), run as a task. *)
Definition _parse_data (st : IterState) : task_result * IterState :=
  match lift (ws_receive (AsyncResponseIter._ws (fst st))) st with
  | (Raise e, st') => (TaskRaised e, st')
  | (Ok None, st') => (TaskWaiting, st')
  | (Ok (Some message), st') =>
      match parse_message message st' with
      | (Ok _, st'') => (TaskDone, st'')
      | (Raise e, st'') => (TaskRaised e, st'')
      end
  end.

(** What a consumer gets from [await self._response_queue.get()]: an
    item, or nothing ever when the queue stays empty after the task. *)
Inductive fetch_result : Type :=
| Fetched (message : option Message.t)
| Suspended (task : task_result).

Definition get_nowait (st : IterState) : option (option Message.t * IterState) :=
  match AsyncResponseIter._response_queue (fst st) with
  | [] => None
  | x :: q => Some (x, (AsyncResponseIter.set_response_queue q (fst st), snd st))
  end.

(** [AsyncResponseIter.fetch_data] (lines 153-159).  On an empty queue
    the caller suspends in [get()], the task scheduled by
    [ensure_future] runs, and the caller resumes with the first item the
    task has put; the transport's coroutines do not suspend when a frame
    is there, so the task runs to its end first. *)
Definition fetch_data (st : IterState) : fetch_result * IterState :=
  match get_nowait st with
  | Some (message, st') => (Fetched message, st')
  | None =>
      let '(task, st1) := _parse_data st in
      match get_nowait st1 with
      | Some (message, st2) => (Fetched message, st2)
      | None => (Suspended task, st1)
      end
  end.

(** [AsyncResponseIter.__anext__] (lines 140-145): a [Message] is a
    non-empty tuple, hence true; [None] ends the iteration. *)
Inductive next_result : Type :=
| Yield (message : Message.t)
| Stop
| Hangs (task : task_result).

Definition __anext__ (st : IterState) : next_result * IterState :=
  match fetch_data st with
  | (Fetched (Some msg), st') => (Yield msg, st')
  | (Fetched None, st') => (Stop, st')
  | (Suspended task, st') => (Hangs task, st')
  end.

(** [async for msg in stream], bounded to [n] pulls: what each pull
    returned and the state it left.  The loop ends at [Stop]; after
    [Hangs] the consumer never runs again. *)
Fixpoint pulls (n : nat) (st : IterState) : list (next_result * IterState) :=
  match n with
  | O => []
  | S n' =>
      match __anext__ st with
      | (Yield msg, st') => (Yield msg, st') :: pulls n' st'
      | (r, st') => [(r, st')]
      end
  end.

(** ** Observations and scenarios *)

(** A fresh pool: one [Driver], as [__init__] leaves it, in an empty
    store. *)
Definition pool : ref := 0%nat.
Definition fresh_world : World := snd (new_driver Driver.__init__ empty_world).

(** The calls a client makes on the pool, one after the other and each
    run to its end before the next (one exclusion domain). *)
Inductive pool_op : Type :=
| OpConnect (force_close recycle : bool) (net : connect_result)
| OpRecycle (force_close recycle : bool) (net : connect_result)
| OpReclaim (conn : ref)
| OpClose (conn : ref).

Definition run_op (self : ref) (o : pool_op) (w : World) : outcome unit * World :=
  match o with
  | OpConnect fc rc net => (Driver_connect self fc rc net ;;; ret tt) w
  | OpRecycle fc rc net => (Driver_recycle self fc rc net ;;; ret tt) w
  | OpReclaim c => Driver_reclaim self c w
  | OpClose c => Connection_close c w
  end.

(** The outcomes of the calls, and the store they leave; a call that
    raises is caught by the client, which goes on. *)
Fixpoint run_ops (self : ref) (os : list pool_op) (w : World)
    : list (outcome unit) * World :=
  match os with
  | [] => ([], w)
  | o :: os' =>
      let '(r, w') := run_op self o w in
      let '(rs, w'') := run_ops self os' w' in
      (r :: rs, w'')
  end.

Definition total_of (self : ref) (w : World) : option Z :=
  Driver.total_connections <$> drivers w !! self.
Definition open_of (self : ref) (w : World) : option Z :=
  Driver._open_connections <$> drivers w !! self.
Definition reclaimed_of (self : ref) (w : World) : option (list ref) :=
  Driver._reclaimed <$> drivers w !! self.
Definition closed_of (conn : ref) (w : World) : option bool :=
  Connection._closed <$> conns w !! conn.
Definition ws_closed_of (ws : ref) (w : World) : option bool :=
  WebSocket.closed <$> sockets w !! ws.
Definition outbox_of (ws : ref) (w : World) : option (list (list byte)) :=
  WebSocket.outbox <$> sockets w !! ws.

(** [n] successful [connect()] calls with the default flags. *)
Definition connects (n : nat) : list pool_op :=
  repeat (OpConnect true false (WsOpened [])) n.

(** What became of a connection: closed, waiting in the pool's deque, or
    still with its user. *)
Inductive fate : Type :=
| WasClosed
| WasReclaimed
| InUse.

Definition channel_fate (self conn : ref) (w : World) : option fate :=
  match conns w !! conn, drivers w !! self with
  | Some c, Some d =>
      Some (if Connection._closed c then WasClosed
            else if bool_decide (conn ∈ Driver._reclaimed d) then WasReclaimed
            else InUse)
  | _, _ => None
  end.

(** The fate the policy of [term] gives a connection with these flags. *)
Definition disposition (force_close recycle : bool) : fate :=
  if force_close then WasClosed else if recycle then WasReclaimed else InUse.

(** A stream on a fresh pool: [connect] with the given flags to a peer
    that will send [frames], then [submit] of one query (its socket is
    object 1 and its connection object 2). *)
Definition open_stream (force_close recycle : bool) (frames : list Message.t)
    : outcome AsyncResponseIter.t * World :=
  (c <- Driver_connect pool force_close recycle (WsOpened frames) ;;
   Connection_submit c "g.V()" JNull "gremlin-groovy" None "eval" "" None None
     "5d8a6c2e-0f0b-4f53-9d58-1c54a2f0a7b1") fresh_world.

Definition pulls_of (n : nat) (s : outcome AsyncResponseIter.t * World)
    : list (next_result * IterState) :=
  match s with
  | (Ok i, w) => pulls n (i, w)
  | (Raise _, _) => []
  end.

(** A frame with the given status code and the payload of [m]. *)
Definition with_status (code : Z) (m : Message.t) : Message.t :=
  Message.mk code (Message.data m) (Message.message m) (Message.metadata m).

Definition results (trace : list (next_result * IterState)) : list next_result :=
  map fst trace.
Definition fates (self conn : ref) (trace : list (next_result * IterState))
    : list (option fate) :=
  map (fun p => channel_fate self conn (snd (snd p))) trace.
Definition closed_flags (trace : list (next_result * IterState)) : list bool :=
  map (fun p => AsyncResponseIter._closed (fst (snd p))) trace.
Definition outboxes (ws : ref) (trace : list (next_result * IterState))
    : list (option (list (list byte))) :=
  map (fun p => outbox_of ws (snd (snd p))) trace.

(** A pool over its limit, with a connection of its own (object 2, on
    socket 1) and one made by hand, [Connection(ws, loop)], that no
    driver owns (object 68, on socket 67). *)
Definition over_limit_world : World :=
  snd ((ws <- new_socket (WebSocket.mk false [] []) ;;
        new_conn (Connection.__init__ ws true false None None None))
         (snd (run_ops pool (connects 33) fresh_world))).

Definition max_of (self : ref) (w : World) : option Z :=
  Driver.max_connections <$> drivers w !! self.

(** One [connect()] on a fresh pool: socket 1, connection 2. *)
Definition one_connection_world : World :=
  snd (run_ops pool [OpConnect true false (WsOpened [])] fresh_world).

(** A pool whose deque holds one connection, closed by its user after
    it was reclaimed. *)
Definition stale_queue_world : World :=
  snd (run_ops pool [OpConnect false true (WsOpened []); OpReclaim 2%nat; OpClose 2%nat]
         fresh_world).

(** A pool at its limit, with an empty deque. *)
Definition at_capacity_world : World :=
  snd (run_ops pool (connects 32) fresh_world).

(** A pool at its limit whose deque holds one closed connection. *)
Definition at_capacity_stale_world : World :=
  snd (run_ops pool (connects 32) stale_queue_world).

(** The wire frame around a serialized body. *)
Definition framed (body : string) : list byte :=
  (x10 :: list_byte_of_string "application/json" ++ encode_utf8 body)%list.

(** The store after [frame] was sent on socket [ws], whose state was [s]. *)
Definition sent (ws : ref) (s : WebSocket.t) (frame : list byte) (w : World) : World :=
  set_sockets (insert ws (WebSocket.mk (WebSocket.closed s) (WebSocket.inbox s)
                            (WebSocket.outbox s ++ [frame]))) w.

Definition aliases_or_empty (aliases : option json) : json :=
  match aliases with
  | None => JDict []
  | Some a => a
  end.

Definition id_or (request_id : option string) (uuid4 : string) : string :=
  match request_id with
  | None => uuid4
  | Some r => r
  end.

(** The request dict of an [eval] with its [args], in insertion order. *)
Definition eval_args (gremlin : string) (bindings : json) (lang : string)
    (aliases : json) : list (string * json) :=
  [("gremlin", JStr gremlin); ("bindings", bindings);
   ("language", JStr lang); ("aliases", aliases)].

(** ** Predicates on the pool *)

Definition closed_in (w : World) (c : ref) : Prop :=
  exists x : Connection.t, conns w !! c = Some x /\ Connection._closed x = true.
Definition live_in (w : World) (c : ref) : Prop :=
  exists x : Connection.t, conns w !! c = Some x /\ Connection._closed x = false.

(** The driver after [k] discards that left [q] in the deque. *)
Definition discarded (k : nat) (q : list ref) (d : Driver.t) : Driver.t :=
  Driver.set_reclaimed q (Driver.add_open_connections (- Z.of_nat k) d).

(** The count of the pool is at most one over its limit, and no
    [connect] is under way. *)
Definition pool_bound (self : ref) (w : World) : Prop :=
  exists d : Driver.t,
    drivers w !! self = Some d
    /\ Driver._connecting d = 0
    /\ Driver._open_connections d <= Driver._max_connections d + 1.

(** [w'] has the driver [self] of [w] with the same limit, the same
    [_connecting] and no more open connections. *)
Definition shrinks (self : ref) (w w' : World) : Prop :=
  forall d : Driver.t,
    drivers w !! self = Some d ->
    exists d' : Driver.t,
      drivers w' !! self = Some d'
      /\ Driver._connecting d' = Driver._connecting d
      /\ Driver._max_connections d' = Driver._max_connections d
      /\ Driver._open_connections d' <= Driver._open_connections d.

(** A deque that holds a closed connection (object 2) before a live one
    (object 4). *)
Definition mixed_queue_world : World :=
  snd (run_ops pool [OpConnect false true (WsOpened []); OpConnect false true (WsOpened []);
                     OpReclaim 2%nat; OpReclaim 4%nat; OpClose 2%nat] fresh_world).

(** * The rest of the driver *)

(** ** Driver.close (lines 95-102) *)

(** The attributes of a [Driver] that only [__init__] and [close] touch:
    the aiohttp session the driver was made with ([session_closed]: was
    it closed), the attribute [_client_session] ([None] once [close] has
    set it to [None]) and [_closed], which no code sets before [close]. *)
Module DriverRest.
Record t : Type := mk {
  session_closed : bool;
  _client_session : option unit;
  _closed : option bool
}.

(** [Driver.__init__] (lines 24-26). *)
Definition __init__ : t := mk false (Some tt) None.
End DriverRest.

Definition DriverState : Type := DriverRest.t * World.

(** A call on the store from a method of an object held beside it. *)
Definition lift_snd {X A} (m : M World A) : M (X * World) A :=
  fun '(x, w) => let '(r, w') := m w in (r, (x, w')).
Definition upd_fst {X} (f : X -> X) : M (X * World) unit :=
  modify (fun '(x, w) => (f x, w)).

(** The [while self._reclaimed:] loop of [Driver.close] (lines 96-98);
    [q] is the content of [self._reclaimed]. *)
Fixpoint close_loop (self : ref) (q : list ref) : M World unit :=
  match q with
  | [] => ret tt
  | c :: q' =>
      upd_driver self (Driver.set_reclaimed q') ;;;
      Connection_close c ;;;
      close_loop self q'
  end.

(** [Driver.close] (lines 95-102). *)
Definition Driver_close (self : ref) : M DriverState unit :=
  d <- lift_snd (get_driver self) ;;
  lift_snd (close_loop self (Driver._reclaimed d)) ;;;
  rest <- gets fst ;;
  match DriverRest._client_session rest with
  | None => raise (AttributeError "'NoneType' object has no attribute 'close'")
  | Some _ =>
      upd_fst (fun r => DriverRest.mk true (DriverRest._client_session r)
                          (DriverRest._closed r)) ;;;
      upd_fst (fun r => DriverRest.mk (DriverRest.session_closed r) None
                          (DriverRest._closed r)) ;;;
      upd_fst (fun r => DriverRest.mk (DriverRest.session_closed r)
                          (DriverRest._client_session r) (Some true))
  end.

(** ** AsyncDriverConnectionContextManager (lines 105-119) *)

Module ContextManager.
Record t : Type := mk {
  _driver : option ref;
  _conn : option ref
}.

(** [__init__] (lines 109-110): the slot [_conn] is not set yet. *)
Definition __init__ (driver : ref) : t := mk (Some driver) None.
End ContextManager.

(** [Driver.get] (lines 46-47). *)
Definition Driver_get (self : ref) : ContextManager.t := ContextManager.__init__ self.

(** [__aenter__] (lines 112-114). *)
Definition __aenter__ (net : connect_result) : M (ContextManager.t * World) ref :=
  cm <- gets fst ;;
  match ContextManager._driver cm with
  | None => raise (AttributeError "'NoneType' object has no attribute 'connect'")
  | Some d =>
      c <- lift_snd (Driver_connect d false false net) ;;
      upd_fst (fun cm => ContextManager.mk (ContextManager._driver cm) (Some c)) ;;;
      ret c
  end.

(** [__aexit__] (lines 116-119). *)
Definition __aexit__ : M (ContextManager.t * World) unit :=
  cm <- gets fst ;;
  match ContextManager._conn cm with
  | None => raise (AttributeError "_conn")
  | Some c =>
      lift_snd (Connection_close c) ;;;
      upd_fst (fun cm => ContextManager.mk (ContextManager._driver cm) None) ;;;
      upd_fst (fun cm => ContextManager.mk None (ContextManager._conn cm))
  end.

(** [async with driver.get() as conn: body]: [__aexit__] returns [None],
    so an exception of the body goes on after it. *)
Definition async_with {A} (net : connect_result) (body : ref -> M World A)
    : M (ContextManager.t * World) A :=
  conn <- __aenter__ net ;;
  try_finally (lift_snd (body conn)) __aexit__.

(** ** More observations *)

(** The store after a [connect] that was let in: a new socket, a new
    connection on it, one more open connection. *)
Definition connected (self : ref) (force_close recycle : bool) (frames : list Message.t)
    (d : Driver.t) (w : World) : World :=
  mkWorld (<[self := Driver.add_open_connections 1 d]> (drivers w))
          (<[S (next_ref w) := Connection.__init__ (next_ref w) force_close recycle
                                 (Some self) None None]> (conns w))
          (<[next_ref w := WebSocket.mk false frames []]> (sockets w))
          (S (S (next_ref w))).

(** Every driver of [w] is still there in [w'], changed at most as [R]
    allows. *)
Definition keeps (R : Driver.t -> Driver.t -> Prop) (w w' : World) : Prop :=
  forall (r : ref) (d : Driver.t),
    drivers w !! r = Some d ->
    exists d' : Driver.t, drivers w' !! r = Some d' /\ R d d'.

(** The configuration of a driver and its count of messages in flight. *)
Definition same_config (d d' : Driver.t) : Prop :=
  Driver._max_connections d' = Driver._max_connections d
  /\ Driver._max_inflight_messages d' = Driver._max_inflight_messages d
  /\ Driver._inflight_messages d' = Driver._inflight_messages d.

Definition same_deque (d d' : Driver.t) : Prop :=
  Driver._reclaimed d' = Driver._reclaimed d.

(** The iterator [submit] returns on the connection of [open_stream],
    and the store [open_stream] leaves. *)
Definition stream_iter (force_close recycle : bool) : AsyncResponseIter.t :=
  AsyncResponseIter.__init__ 1%nat 2%nat
    (Connection.mk 1%nat force_close recycle (Some pool) None None false)
    None None "" None.
Definition stream_world (force_close recycle : bool) (frames : list Message.t) : World :=
  snd (open_stream force_close recycle frames).

(** The store after the [close()] of connection [c], whose state was
    [x], on socket state [s], owned by driver [d0] in state [dr]. *)
Definition closed_world (c : ref) (x : Connection.t) (s : WebSocket.t)
    (d0 : ref) (dr : Driver.t) (w : World) : World :=
  mkWorld (<[d0 := Driver.add_open_connections (-1) dr]> (drivers w))
          (<[c := Connection.set_driver None (Connection.set_closed true x)]> (conns w))
          (<[Connection._ws x := WebSocket.mk true (WebSocket.inbox s) (WebSocket.outbox s)]>
             (sockets w))
          (next_ref w).

(** The store after the [close()] of a connection that no driver owns:
    the socket is closed and the connection marked, then the call
    raises. *)
Definition half_closed_world (c : ref) (x : Connection.t) (s : WebSocket.t) (w : World)
    : World :=
  mkWorld (drivers w)
          (<[c := Connection.set_closed true x]> (conns w))
          (<[Connection._ws x := WebSocket.mk true (WebSocket.inbox s) (WebSocket.outbox s)]>
             (sockets w))
          (next_ref w).

(** Connection [c] is in the store, owned by driver [self], on a socket
    that is in the store. *)
Definition owned_in (self : ref) (w : World) (c : ref) : Prop :=
  exists x : Connection.t,
    conns w !! c = Some x
    /\ Connection._driver x = Some self
    /\ is_Some (sockets w !! Connection._ws x).

(** A pool with three connections of its own, 2, 4 and 6, waiting in
    the deque, and the same pool after the user of connection 4 has
    closed it. *)
Definition idle_pool_world : World :=
  snd (run_ops pool [OpConnect false true (WsOpened []); OpConnect false true (WsOpened []);
                     OpConnect false true (WsOpened []);
                     OpReclaim 2%nat; OpReclaim 4%nat; OpReclaim 6%nat] fresh_world).
Definition idle_stale_world : World :=
  snd (run_ops pool [OpClose 4%nat] idle_pool_world).

(** The store after the first frame of socket [ws], in state [s], was
    received: [rest] is what the peer has still to deliver. *)
Definition received (ws : ref) (s : WebSocket.t) (rest : list Message.t) (w : World)
    : World :=
  set_sockets (insert ws (WebSocket.mk (WebSocket.closed s) rest (WebSocket.outbox s))) w.

(** The stream still holds its connection, which is in the store with
    its socket and the driver that owns it. *)
Definition stream_wf (i : AsyncResponseIter.t) (w : World) : Prop :=
  exists (c : ref) (x : Connection.t) (d : ref) (dr : Driver.t),
    AsyncResponseIter._conn i = Some c
    /\ conns w !! c = Some x
    /\ Connection._driver x = Some d
    /\ drivers w !! d = Some dr
    /\ is_Some (sockets w !! Connection._ws x).

(** The status codes [_parse_data] puts in the queue, and the ones that
    end the exchange. *)
Definition is_error_status (code : Z) : Prop :=
  code <> 200 /\ code <> 206 /\ code <> 204 /\ code <> 407.

(** Every connection and socket of [w] (the objects named below
    [next_ref w]) is still there in [w'], changed at most as [Rc] and
    [Rs] allow. *)
Definition evolves (Rc : Connection.t -> Connection.t -> Prop)
    (Rs : WebSocket.t -> WebSocket.t -> Prop) (w w' : World) : Prop :=
  (next_ref w <= next_ref w')%nat
  /\ (forall (c : ref) (x : Connection.t),
        (c < next_ref w)%nat -> conns w !! c = Some x ->
        exists x' : Connection.t, conns w' !! c = Some x' /\ Rc x x')
  /\ (forall (r : ref) (s : WebSocket.t),
        (r < next_ref w)%nat -> sockets w !! r = Some s ->
        exists s' : WebSocket.t, sockets w' !! r = Some s' /\ Rs s s').

(** A connection keeps its socket and its flags, and stays closed once
    closed. *)
Definition conn_forward (x x' : Connection.t) : Prop :=
  Connection._ws x' = Connection._ws x
  /\ Connection._force_close x' = Connection._force_close x
  /\ Connection._recycle x' = Connection._recycle x
  /\ (Connection._closed x = true -> Connection._closed x' = true).

(** A socket stays closed once closed, nothing more is written to it,
    and the frames still to come are a tail of those that were. *)
Definition socket_quiet (s s' : WebSocket.t) : Prop :=
  WebSocket.outbox s' = WebSocket.outbox s
  /\ (WebSocket.closed s = true -> WebSocket.closed s' = true)
  /\ WebSocket.inbox s' `suffix_of` WebSocket.inbox s.

(** The same, but for what was written: it is only added to. *)
Definition socket_sent (s s' : WebSocket.t) : Prop :=
  WebSocket.outbox s `prefix_of` WebSocket.outbox s'
  /\ WebSocket.closed s' = WebSocket.closed s
  /\ WebSocket.inbox s' = WebSocket.inbox s.

(** The invariant of a stream since the store [w0]: the drivers changed
    as [R] allows, and the stream's [_force_close] is [b]. *)
Definition stream_inv (R : Driver.t -> Driver.t -> Prop) (b : bool) (w0 : World)
    (st : IterState) : Prop :=
  keeps R w0 (snd st) /\ AsyncResponseIter._force_close (fst st) = b.

(** * Properties *)

(** ** The monad and the store *)

Lemma bind_Ok {S A B} (m : M S A) (k : A -> M S B) (s s' : S) (a : A) :
  m s = (Ok a, s') -> bind m k s = k a s'.
Proof. intros H. unfold bind. rewrite H. reflexivity. Qed.

Lemma bind_Raise {S A B} (m : M S A) (k : A -> M S B) (s s' : S) (e : exn) :
  m s = (Raise e, s') -> bind m k s = (Raise e, s').
Proof. intros H. unfold bind. rewrite H. reflexivity. Qed.

Lemma bind_bind {S A B C} (m : M S A) (k : A -> M S B) (k' : B -> M S C) (s : S) :
  bind (bind m k) k' s = bind m (fun a => bind (k a) k') s.
Proof. unfold bind. destruct (m s) as [[a | e] s']; reflexivity. Qed.

(** Runs the next call of a sequence, given what the call returns. *)
Ltac step H := rewrite ?bind_bind; rewrite (bind_Ok _ _ _ _ _ H).

Section Store.
Variable w : World.

Lemma get_driver_Some (r : ref) (d : Driver.t) :
  drivers w !! r = Some d -> get_driver r w = (Ok d, w).
Proof. intros H. unfold get_driver. rewrite H. reflexivity. Qed.

Lemma get_conn_Some (r : ref) (c : Connection.t) :
  conns w !! r = Some c -> get_conn r w = (Ok c, w).
Proof. intros H. unfold get_conn. rewrite H. reflexivity. Qed.

Lemma get_socket_Some (r : ref) (s : WebSocket.t) :
  sockets w !! r = Some s -> get_socket r w = (Ok s, w).
Proof. intros H. unfold get_socket. rewrite H. reflexivity. Qed.

Lemma upd_driver_Some (r : ref) (d : Driver.t) (f : Driver.t -> Driver.t) :
  drivers w !! r = Some d ->
  upd_driver r f w = (Ok tt, set_drivers (insert r (f d)) w).
Proof. intros H. unfold upd_driver. step (get_driver_Some r d H). reflexivity. Qed.

Lemma upd_conn_Some (r : ref) (c : Connection.t) (f : Connection.t -> Connection.t) :
  conns w !! r = Some c ->
  upd_conn r f w = (Ok tt, set_conns (insert r (f c)) w).
Proof. intros H. unfold upd_conn. step (get_conn_Some r c H). reflexivity. Qed.

Lemma upd_socket_Some (r : ref) (s : WebSocket.t) (f : WebSocket.t -> WebSocket.t) :
  sockets w !! r = Some s ->
  upd_socket r f w = (Ok tt, set_sockets (insert r (f s)) w).
Proof. intros H. unfold upd_socket. step (get_socket_Some r s H). reflexivity. Qed.

Lemma ws_send_bytes_Some (ws : ref) (s : WebSocket.t) (frame : list byte) :
  sockets w !! ws = Some s -> ws_send_bytes ws frame w = (Ok tt, sent ws s frame w).
Proof. intros H. unfold ws_send_bytes. rewrite (upd_socket_Some ws s _ H). reflexivity. Qed.

Lemma set_drivers_id (r : ref) (d : Driver.t) :
  drivers w !! r = Some d -> set_drivers (insert r d) w = w.
Proof.
  intros H. destruct w as [ds cs ss n]. unfold set_drivers. simpl in *.
  f_equal. apply insert_id. exact H.
Qed.

Lemma set_drivers_twice (r : ref) (d d' : Driver.t) :
  set_drivers (insert r d') (set_drivers (insert r d) w) = set_drivers (insert r d') w.
Proof.
  destruct w as [ds cs ss n]. unfold set_drivers. simpl.
  f_equal. apply insert_insert_eq.
Qed.
End Store.

Lemma add_connecting_back (d : Driver.t) :
  Driver.add_connecting (-1) (Driver.add_connecting 1 d) = d.
Proof. destruct d. unfold Driver.add_connecting. simpl. f_equal. lia. Qed.

Lemma not_le_leb (a b : Z) : b < a -> (a <=? b) = false.
Proof. intros H. apply Z.leb_gt. exact H. Qed.

(** ** Driver.connect *)

(** C10: when the guard of [connect] passes and [ws_connect] raises, the
    exception reaches the caller and the store is the one before the
    call: [_connecting] is back at its value, [_open_connections] is not
    incremented and no [Connection] exists that did not before. *)
Theorem Driver_connect_transport_failure
    (w : World) (self : ref) (d : Driver.t) (force_close recycle : bool) (e : exn) :
  drivers w !! self = Some d ->
  Driver.total_connections d <= Driver._max_connections d ->
  Driver_connect self force_close recycle (WsFailed e) w = (Raise e, w).
Proof.
  intros Hd Hle. unfold Driver_connect.
  step (get_driver_Some w self d Hd).
  apply Z.leb_le in Hle. rewrite Hle.
  step (upd_driver_Some w self d (Driver.add_connecting 1) Hd).
  unfold try_finally.
  set (w1 := set_drivers _ w).
  assert (H1 : drivers w1 !! self = Some (Driver.add_connecting 1 d)).
  { subst w1. simpl. apply lookup_insert_eq. }
  rewrite (bind_Raise _ _ w1 w1 e) by reflexivity.
  rewrite (upd_driver_Some w1 self _ _ H1).
  subst w1. rewrite set_drivers_twice, add_connecting_back.
  rewrite (set_drivers_id w self d Hd). reflexivity.
Qed.

Lemma Driver_connect_transport_failure_witness :
  Driver_connect pool true false (WsFailed (TransportError "connection refused")) fresh_world
  = (Raise (TransportError "connection refused"), fresh_world).
Proof.
  apply (Driver_connect_transport_failure fresh_world pool Driver.__init__).
  - reflexivity.
  - vm_compute. discriminate.
Defined.

(** C1, at the failing input: thirty-three [connect()] calls in a row on
    a fresh pool all return a connection, and leave
    [_connecting + _open_connections] at 33 with [_max_connections] at
    32. *)
Theorem connect_exceeds_max_connections :
  fst (run_ops pool (connects 33) fresh_world) = repeat (Ok tt) 33
  /\ total_of pool (snd (run_ops pool (connects 33) fresh_world)) = Some 33
  /\ max_of pool (snd (run_ops pool (connects 33) fresh_world)) = Some 32.
Proof. vm_compute. repeat split; reflexivity. Qed.

(** ** Driver.recycle *)

Lemma discarded_pop (q : list ref) (d : Driver.t) :
  Driver.set_reclaimed q d = discarded 0 q d.
Proof.
  destruct d. unfold discarded, Driver.set_reclaimed, Driver.add_open_connections.
  simpl. f_equal. lia.
Qed.

Lemma discarded_step (k : nat) (q q' : list ref) (d : Driver.t) :
  discarded k q (Driver.add_open_connections (-1) (Driver.set_reclaimed q' d))
  = discarded (S k) q d.
Proof.
  destruct d. unfold discarded, Driver.set_reclaimed, Driver.add_open_connections.
  simpl. f_equal. lia.
Qed.

Lemma last_cons_default {A} (a d : A) (l : list A) :
  List.last (a :: l) d = List.last l a.
Proof.
  revert a d. induction l as [| b l IH]; intros a d; [reflexivity |].
  change (List.last (a :: b :: l) d) with (List.last (b :: l) d).
  rewrite (IH b d), (IH b a). reflexivity.
Qed.

Section RecycleLoop.
Variable self : ref.

(** The loop pops the closed connections before the first live one,
    taking one off the count for each, and stops at the live one. *)
Lemma recycle_loop_first_live (pre : list ref) :
  forall (w : World) (d : Driver.t) (c : ref) (rest : list ref) (conn0 : option ref),
    drivers w !! self = Some d ->
    Forall (closed_in w) pre ->
    live_in w c ->
    recycle_loop self (pre ++ c :: rest) conn0 w
    = (Ok (Some c), set_drivers (insert self (discarded (length pre) rest d)) w).
Proof.
  induction pre as [| p pre IH]; intros w d c rest conn0 Hd Hpre Hc.
  - destruct Hc as (x & Hx & Hlive). simpl.
    step (upd_driver_Some w self d (Driver.set_reclaimed rest) Hd).
    set (w1 := set_drivers _ w).
    step (get_conn_Some w1 c x Hx). rewrite Hlive. simpl.
    subst w1. rewrite discarded_pop. reflexivity.
  - apply Forall_cons in Hpre as [(x & Hx & Hclosed) Hpre]. simpl.
    step (upd_driver_Some w self d (Driver.set_reclaimed (pre ++ c :: rest)) Hd).
    set (w1 := set_drivers _ w).
    step (get_conn_Some w1 p x Hx). rewrite Hclosed. simpl.
    assert (H1 : drivers w1 !! self = Some (Driver.set_reclaimed (pre ++ c :: rest) d))
      by (simpl; apply lookup_insert_eq).
    step (upd_driver_Some w1 self _ (Driver.add_open_connections (-1)) H1).
    set (w2 := set_drivers _ w1).
    assert (H2 : drivers w2 !! self
                 = Some (Driver.add_open_connections (-1)
                           (Driver.set_reclaimed (pre ++ c :: rest) d)))
      by (simpl; apply lookup_insert_eq).
    rewrite (IH w2 _ c rest (Some p) H2 Hpre Hc).
    subst w2 w1. rewrite !set_drivers_twice, discarded_step. reflexivity.
Qed.

(** On a deque of closed connections the loop empties the deque and
    ends with the last one popped in [conn]. *)
Lemma recycle_loop_all_closed (q : list ref) :
  forall (w : World) (d : Driver.t) (conn0 : option ref),
    drivers w !! self = Some d ->
    Driver._reclaimed d = q ->
    Forall (closed_in w) q ->
    recycle_loop self q conn0 w
    = (Ok (List.last (map Some q) conn0),
       set_drivers (insert self (discarded (length q) [] d)) w).
Proof.
  induction q as [| p q IH]; intros w d conn0 Hd Hq Hall.
  - simpl. unfold ret. f_equal. symmetry.
    rewrite <- discarded_pop. rewrite <- Hq.
    replace (Driver.set_reclaimed (Driver._reclaimed d) d) with d by (destruct d; reflexivity).
    apply set_drivers_id. exact Hd.
  - apply Forall_cons in Hall as [(x & Hx & Hclosed) Hall]. simpl recycle_loop.
    step (upd_driver_Some w self d (Driver.set_reclaimed q) Hd).
    set (w1 := set_drivers _ w).
    step (get_conn_Some w1 p x Hx). rewrite Hclosed. cbn [negb].
    assert (H1 : drivers w1 !! self = Some (Driver.set_reclaimed q d))
      by (simpl; apply lookup_insert_eq).
    step (upd_driver_Some w1 self _ (Driver.add_open_connections (-1)) H1).
    set (w2 := set_drivers _ w1).
    assert (H2 : drivers w2 !! self
                 = Some (Driver.add_open_connections (-1) (Driver.set_reclaimed q d)))
      by (simpl; apply lookup_insert_eq).
    rewrite (IH w2 (Driver.add_open_connections (-1) (Driver.set_reclaimed q d))
               (Some p) H2 eq_refl Hall).
    subst w2 w1. rewrite !set_drivers_twice, discarded_step.
    cbn [map]. rewrite last_cons_default. reflexivity.
Qed.
End RecycleLoop.

(** X1: when the deque holds a live connection, [recycle()] returns the
    first live one in FIFO order, after popping each closed connection
    before it with one decrement of [_open_connections] each; what
    follows it stays in the deque, and the connection returned is
    live. *)
Theorem Driver_recycle_first_live
    (w : World) (self : ref) (d : Driver.t) (pre : list ref) (c : ref) (rest : list ref)
    (force_close recycle : bool) (net : connect_result) :
  drivers w !! self = Some d ->
  Driver._reclaimed d = (pre ++ c :: rest)%list ->
  Forall (closed_in w) pre ->
  live_in w c ->
  Driver_recycle self force_close recycle net w
  = (Ok c, set_drivers (insert self (discarded (length pre) rest d)) w)
  /\ live_in (snd (Driver_recycle self force_close recycle net w)) c.
Proof.
  intros Hd Hq Hpre Hc.
  assert (Hrun : Driver_recycle self force_close recycle net w
                 = (Ok c, set_drivers (insert self (discarded (length pre) rest d)) w)).
  { unfold Driver_recycle. step (get_driver_Some w self d Hd). rewrite Hq.
    destruct (pre ++ c :: rest)%list as [| a q] eqn:E; [destruct pre; discriminate |].
    cbv iota. rewrite <- E.
    step (recycle_loop_first_live self pre w d c rest None Hd Hpre Hc).
    reflexivity. }
  split; [exact Hrun |]. rewrite Hrun. exact Hc.
Qed.

Lemma Driver_recycle_first_live_witness :
  fst (Driver_recycle pool false true (WsOpened []) mixed_queue_world) = Ok 4%nat
  /\ live_in (snd (Driver_recycle pool false true (WsOpened []) mixed_queue_world)) 4%nat.
Proof.
  destruct (Driver_recycle_first_live mixed_queue_world pool
              (Driver.mk [2%nat; 4%nat] 1 0 0 32 128) [2%nat] 4%nat []
              false true (WsOpened []) eq_refl eq_refl) as [Hrun Hlive].
  - constructor; [| constructor].
    exists (Connection.mk 1%nat false true None None None true). split; reflexivity.
  - exists (Connection.mk 3%nat false true (Some pool) None None false). split; reflexivity.
  - rewrite Hrun. split; [reflexivity | rewrite <- Hrun; exact Hlive].
Defined.

Lemma last_map_Some {A} (l : list A) (a : A) :
  List.last (map Some l) (Some a) = Some (List.last l a).
Proof.
  revert a. induction l as [| b l IH]; intros a; [reflexivity |].
  cbn [map]. rewrite !last_cons_default. apply IH.
Qed.

Lemma last_in_cons {A} (l : list A) (a : A) : List.last l a ∈ a :: l.
Proof.
  revert a. induction l as [| b l IH]; intros a.
  - simpl. left.
  - rewrite last_cons_default. right. apply IH.
Qed.

(** On a non-empty deque of closed connections, [recycle()] returns the
    last of them, a closed connection. *)
Lemma Driver_recycle_all_closed
    (w : World) (self : ref) (d : Driver.t) (c : ref) (q : list ref)
    (force_close recycle : bool) (net : connect_result) :
  drivers w !! self = Some d ->
  Driver._reclaimed d = c :: q ->
  Forall (closed_in w) (c :: q) ->
  Driver_recycle self force_close recycle net w
  = (Ok (List.last q c), set_drivers (insert self (discarded (length (c :: q)) [] d)) w)
  /\ closed_in (snd (Driver_recycle self force_close recycle net w)) (List.last q c).
Proof.
  intros Hd Hq Hall.
  assert (Hrun : Driver_recycle self force_close recycle net w
                 = (Ok (List.last q c),
                    set_drivers (insert self (discarded (length (c :: q)) [] d)) w)).
  { unfold Driver_recycle. step (get_driver_Some w self d Hd). rewrite Hq.
    cbv iota.
    step (recycle_loop_all_closed self (c :: q) w d None Hd Hq Hall).
    cbn [map]. rewrite last_cons_default, last_map_Some. reflexivity. }
  split; [exact Hrun |]. rewrite Hrun.
  apply (proj1 (Forall_forall _ _) Hall). apply last_in_cons.
Qed.

(** C2, at the failing input: with a deque that holds one closed
    connection, [recycle()] discards it, decrements
    [_open_connections], and returns that closed connection. *)
Theorem recycle_returns_closed_connection :
  reclaimed_of pool stale_queue_world = Some [2%nat]
  /\ closed_of 2%nat stale_queue_world = Some true
  /\ fst (Driver_recycle pool false true (WsOpened []) stale_queue_world) = Ok 2%nat
  /\ closed_of 2%nat (snd (Driver_recycle pool false true (WsOpened []) stale_queue_world))
     = Some true
  /\ open_of pool stale_queue_world = Some 0
  /\ open_of pool (snd (Driver_recycle pool false true (WsOpened []) stale_queue_world))
     = Some (-1).
Proof. vm_compute. repeat split; reflexivity. Qed.

(** C3, at the failing inputs: with the pool at its limit, [recycle()]
    on an empty deque raises [UnboundLocalError], which is not the
    pool's exhaustion error, and on a deque that holds only a closed
    connection it returns that connection. *)
Theorem recycle_at_capacity_unbound :
  (reclaimed_of pool at_capacity_world = Some []
   /\ total_of pool at_capacity_world = Some 32
   /\ max_of pool at_capacity_world = Some 32
   /\ Driver_recycle pool false true (WsOpened []) at_capacity_world
      = (Raise (UnboundLocalError "conn"), at_capacity_world)
   /\ UnboundLocalError "conn" <> PoolExhausted)
  /\ (reclaimed_of pool at_capacity_stale_world = Some [2%nat]
      /\ closed_of 2%nat at_capacity_stale_world = Some true
      /\ total_of pool at_capacity_stale_world = Some 32
      /\ fst (Driver_recycle pool false true (WsOpened []) at_capacity_stale_world)
         = Ok 2%nat).
Proof. vm_compute. repeat split; try reflexivity. discriminate. Qed.

(** ** Driver.reclaim *)

(** C4, as the code has it: at or under the limit a closed connection
    costs [_open_connections] exactly one and is dropped, and a live one
    is appended to the deque; over the limit a connection of this driver
    is closed, whatever its flags, and is not put in the deque, and a
    connection of no or of another driver leaves the store as it was. *)
Theorem Driver_reclaim_cases
    (w : World) (self conn : ref) (d : Driver.t) (c : Connection.t) :
  drivers w !! self = Some d ->
  conns w !! conn = Some c ->
  (Driver.total_connections d <= Driver.max_connections d ->
     (Connection._closed c = true ->
        Driver_reclaim self conn w =
          (Ok tt, set_drivers (insert self (Driver.add_open_connections (-1) d)) w))
     /\ (Connection._closed c = false ->
        Driver_reclaim self conn w =
          (Ok tt, set_drivers
                    (insert self (Driver.set_reclaimed (Driver._reclaimed d ++ [conn]) d)) w)))
  /\ (Driver.max_connections d < Driver.total_connections d ->
     (Connection._driver c = Some self ->
        forall s : WebSocket.t, sockets w !! Connection._ws c = Some s ->
        exists w' : World,
          Driver_reclaim self conn w = (Ok tt, w')
          /\ closed_of conn w' = Some true
          /\ ws_closed_of (Connection._ws c) w' = Some true
          /\ reclaimed_of self w' = Some (Driver._reclaimed d))
     /\ (Connection._driver c <> Some self ->
        Driver_reclaim self conn w = (Ok tt, w))).
Proof.
  intros Hd Hc. split.
  - intros Hle. apply Z.leb_le in Hle.
    split; intros Hcl; unfold Driver_reclaim;
      step (get_driver_Some w self d Hd); step (get_conn_Some w conn c Hc);
      rewrite Hle, Hcl; erewrite upd_driver_Some by exact Hd; reflexivity.
  - intros Hgt. apply not_le_leb in Hgt. split.
    + intros Hown s Hs.
      unfold Driver_reclaim.
      step (get_driver_Some w self d Hd). step (get_conn_Some w conn c Hc).
      rewrite Hgt, (bool_decide_eq_true_2 _ Hown).
      unfold Connection_close, ws_close.
      step (get_conn_Some w conn c Hc).
      step (upd_socket_Some w _ s
              (fun s => WebSocket.mk true (WebSocket.inbox s) (WebSocket.outbox s)) Hs).
      set (w1 := set_sockets _ w).
      step (upd_conn_Some w1 conn c (Connection.set_closed true) Hc).
      set (w2 := set_conns _ w1).
      rewrite ?bind_bind, Hown.
      step (upd_driver_Some w2 self d (Driver.add_open_connections (-1)) Hd).
      set (w3 := set_drivers _ w2).
      assert (Hc3 : conns w3 !! conn = Some (Connection.set_closed true c))
        by (simpl; apply lookup_insert_eq).
      step (upd_conn_Some w3 conn _ (Connection.set_driver None) Hc3).
      set (w4 := set_conns _ w3).
      assert (Hd4 : drivers w4 !! self = Some (Driver.add_open_connections (-1) d))
        by (simpl; apply lookup_insert_eq).
      rewrite (upd_driver_Some w4 self _ (Driver.add_open_connections (-1)) Hd4).
      eexists. split; [reflexivity |].
      unfold closed_of, ws_closed_of, reclaimed_of. simpl.
      rewrite !lookup_insert_eq. simpl. auto.
    + intros Hother. unfold Driver_reclaim.
      step (get_driver_Some w self d Hd). step (get_conn_Some w conn c Hc).
      rewrite Hgt, (bool_decide_eq_false_2 _ Hother). reflexivity.
Qed.

Lemma Driver_reclaim_cases_witness :
  reclaimed_of pool (snd (Driver_reclaim pool 2%nat one_connection_world)) = Some [2%nat]
  /\ closed_of 2%nat (snd (Driver_reclaim pool 2%nat over_limit_world)) = Some true.
Proof.
  split.
  - destruct (Driver_reclaim_cases one_connection_world pool 2%nat
                (Driver.mk [] 1 0 0 32 128)
                (Connection.mk 1%nat true false (Some pool) None None false)
                eq_refl eq_refl) as [Hunder _].
    destruct (Hunder ltac:(vm_compute; discriminate)) as [_ Hlive].
    rewrite (Hlive eq_refl). reflexivity.
  - destruct (Driver_reclaim_cases over_limit_world pool 2%nat
                (Driver.mk [] 33 0 0 32 128)
                (Connection.mk 1%nat true false (Some pool) None None false)
                eq_refl eq_refl) as [_ Hover].
    destruct (Hover ltac:(vm_compute; reflexivity)) as [Hown _].
    destruct (Hown eq_refl (WebSocket.mk false [] []) eq_refl) as (w' & Hrun & Hclosed & _).
    rewrite Hrun. exact Hclosed.
Defined.

(** C4 as stated fails over the limit: a live connection that no driver
    owns is neither closed nor counted off, and a connection of the
    pool's own costs [_open_connections] two, not one. *)
Lemma Driver_reclaim_over_limit_counterexample :
  total_of pool over_limit_world = Some 33
  /\ max_of pool over_limit_world = Some 32
  /\ closed_of 68%nat over_limit_world = Some false
  /\ Driver_reclaim pool 68%nat over_limit_world = (Ok tt, over_limit_world)
  /\ closed_of 2%nat over_limit_world = Some false
  /\ open_of pool over_limit_world = Some 33
  /\ open_of pool (snd (Driver_reclaim pool 2%nat over_limit_world)) = Some 31.
Proof. vm_compute. repeat split; reflexivity. Qed.

(** ** Connection.close *)

(** C9, at the failing input: the first [close()] of a pooled connection
    closes the socket, sets [_closed] and takes one off
    [_open_connections]; the second raises [AttributeError] (and leaves
    the count alone). *)
Theorem Connection_close_twice :
  open_of pool one_connection_world = Some 1
  /\ fst (Connection_close 2%nat one_connection_world) = Ok tt
  /\ closed_of 2%nat (snd (Connection_close 2%nat one_connection_world)) = Some true
  /\ ws_closed_of 1%nat (snd (Connection_close 2%nat one_connection_world)) = Some true
  /\ open_of pool (snd (Connection_close 2%nat one_connection_world)) = Some 0
  /\ fst (Connection_close 2%nat (snd (Connection_close 2%nat one_connection_world)))
     = Raise (AttributeError "'NoneType' object has no attribute '_open_connections'")
  /\ open_of pool
       (snd (Connection_close 2%nat (snd (Connection_close 2%nat one_connection_world))))
     = Some 0.
Proof. vm_compute. repeat split; reflexivity. Qed.

(** ** The bound the pool keeps *)

Section Shrinks.
Variable self : ref.

Lemma shrinks_refl (w : World) : shrinks self w w.
Proof. intros d Hd. exists d. split; [exact Hd |]. lia. Qed.

Lemma shrinks_trans (w1 w2 w3 : World) :
  shrinks self w1 w2 -> shrinks self w2 w3 -> shrinks self w1 w3.
Proof.
  intros H12 H23 d Hd.
  destruct (H12 d Hd) as (d2 & Hd2 & Hc2 & Hm2 & Ho2).
  destruct (H23 d2 Hd2) as (d3 & Hd3 & Hc3 & Hm3 & Ho3).
  exists d3. split; [exact Hd3 |]. lia.
Qed.

Lemma shrinks_same_drivers (w w' : World) :
  drivers w' = drivers w -> shrinks self w w'.
Proof. intros E d Hd. exists d. rewrite E. split; [exact Hd |]. lia. Qed.

(** An update of one driver that keeps the limit and [_connecting] and
    does not add to the count. *)
Lemma shrinks_update (w : World) (r : ref) (x : Driver.t) (f : Driver.t -> Driver.t) :
  drivers w !! r = Some x ->
  Driver._connecting (f x) = Driver._connecting x ->
  Driver._max_connections (f x) = Driver._max_connections x ->
  Driver._open_connections (f x) <= Driver._open_connections x ->
  shrinks self w (set_drivers (insert r (f x)) w).
Proof.
  intros Hx Hc Hm Ho d Hd. simpl.
  destruct (decide (r = self)) as [-> | Hne].
  - rewrite lookup_insert_eq. rewrite Hx in Hd. injection Hd as <-.
    exists (f x). auto.
  - rewrite lookup_insert_ne by exact Hne. exists d. split; [exact Hd |]. lia.
Qed.

Lemma upd_driver_shrinks (w : World) (r : ref) (f : Driver.t -> Driver.t) :
  (forall x, Driver._connecting (f x) = Driver._connecting x
             /\ Driver._max_connections (f x) = Driver._max_connections x
             /\ Driver._open_connections (f x) <= Driver._open_connections x) ->
  shrinks self w (snd (upd_driver r f w)).
Proof.
  intros Hf. unfold upd_driver, bind, get_driver.
  destruct (drivers w !! r) as [x |] eqn:Hx; simpl.
  - destruct (Hf x) as (Hc & Hm & Ho). apply shrinks_update; assumption.
  - apply shrinks_refl.
Qed.

Lemma upd_conn_drivers (w : World) (r : ref) (f : Connection.t -> Connection.t) :
  drivers (snd (upd_conn r f w)) = drivers w.
Proof.
  unfold upd_conn, bind, get_conn. destruct (conns w !! r); reflexivity.
Qed.

Lemma upd_socket_drivers (w : World) (r : ref) (f : WebSocket.t -> WebSocket.t) :
  drivers (snd (upd_socket r f w)) = drivers w.
Proof.
  unfold upd_socket, bind, get_socket. destruct (sockets w !! r); reflexivity.
Qed.

(** Sequencing: the store after [m ;; k] is the store after [m], or the
    store after [k] run from there. *)
Lemma bind_shrinks {A B} (m : M World A) (k : A -> M World B) (w : World) :
  shrinks self w (snd (m w)) ->
  (forall a w', shrinks self w' (snd (k a w'))) ->
  shrinks self w (snd (bind m k w)).
Proof.
  intros Hm Hk. unfold bind. destruct (m w) as [[a | e] w'] eqn:E; simpl in *.
  - apply (shrinks_trans _ w'); [exact Hm | apply Hk].
  - exact Hm.
Qed.

Lemma add_open_down (x : Driver.t) :
  Driver._connecting (Driver.add_open_connections (-1) x) = Driver._connecting x
  /\ Driver._max_connections (Driver.add_open_connections (-1) x) = Driver._max_connections x
  /\ Driver._open_connections (Driver.add_open_connections (-1) x)
     <= Driver._open_connections x.
Proof. simpl. lia. Qed.

Lemma set_reclaimed_same (q : Driver.t -> list ref) (x : Driver.t) :
  Driver._connecting (Driver.set_reclaimed (q x) x) = Driver._connecting x
  /\ Driver._max_connections (Driver.set_reclaimed (q x) x) = Driver._max_connections x
  /\ Driver._open_connections (Driver.set_reclaimed (q x) x) <= Driver._open_connections x.
Proof. simpl. lia. Qed.

Lemma Connection_close_shrinks (c : ref) (w : World) :
  shrinks self w (snd (Connection_close c w)).
Proof.
  unfold Connection_close.
  apply bind_shrinks.
  { unfold get_conn. destruct (conns w !! c); apply shrinks_refl. }
  intros x w1. apply bind_shrinks.
  { apply shrinks_same_drivers. apply upd_socket_drivers. }
  intros _ w2. apply bind_shrinks.
  { apply shrinks_same_drivers. apply upd_conn_drivers. }
  intros _ w3. destruct (Connection._driver x) as [d |].
  - apply bind_shrinks.
    + apply upd_driver_shrinks. apply add_open_down.
    + intros _ w4. apply shrinks_same_drivers. apply upd_conn_drivers.
  - apply shrinks_refl.
Qed.

Lemma get_driver_shrinks (r : ref) (w : World) : shrinks self w (snd (get_driver r w)).
Proof. unfold get_driver. destruct (drivers w !! r); apply shrinks_refl. Qed.

Lemma get_conn_shrinks (r : ref) (w : World) : shrinks self w (snd (get_conn r w)).
Proof. unfold get_conn. destruct (conns w !! r); apply shrinks_refl. Qed.

Lemma Driver_reclaim_shrinks (r conn : ref) (w : World) :
  shrinks self w (snd (Driver_reclaim r conn w)).
Proof.
  unfold Driver_reclaim.
  apply bind_shrinks; [apply get_driver_shrinks |]. intros d w1.
  apply bind_shrinks; [apply get_conn_shrinks |]. intros c w2.
  destruct (_ <=? _).
  - destruct (Connection._closed c); apply upd_driver_shrinks.
    + apply add_open_down.
    + intros x. apply (set_reclaimed_same (fun d => (Driver._reclaimed d ++ [conn])%list)).
  - destruct (bool_decide _).
    + apply bind_shrinks; [apply Connection_close_shrinks |]. intros _ w3.
      apply upd_driver_shrinks. apply add_open_down.
    + apply shrinks_refl.
Qed.

Lemma recycle_loop_shrinks (r : ref) (q : list ref) :
  forall (conn0 : option ref) (w : World),
    shrinks self w (snd (recycle_loop r q conn0 w)).
Proof.
  induction q as [| c q IH]; intros conn0 w; simpl.
  - apply shrinks_refl.
  - apply bind_shrinks.
    { apply upd_driver_shrinks. intros x. apply (set_reclaimed_same (fun _ => q)). }
    intros _ w1. apply bind_shrinks; [apply get_conn_shrinks |]. intros x w2.
    destruct (negb _).
    + apply shrinks_refl.
    + apply bind_shrinks; [apply upd_driver_shrinks, add_open_down |].
      intros _ w3. apply IH.
Qed.
End Shrinks.

Section Bound.
Variable self : ref.

Lemma shrinks_bound (w w' : World) :
  pool_bound self w -> shrinks self w w' -> pool_bound self w'.
Proof.
  intros (d & Hd & Hc & Ho) Hs.
  destruct (Hs d Hd) as (d' & Hd' & Hc' & Hm' & Ho').
  exists d'. split; [exact Hd' |]. lia.
Qed.

Lemma bind_preserves {A B} (P : World -> Prop) (m : M World A) (k : A -> M World B)
    (w : World) :
  P (snd (m w)) ->
  (forall a w', P w' -> P (snd (k a w'))) ->
  P (snd (bind m k w)).
Proof.
  intros Hm Hk. unfold bind. destruct (m w) as [[a | e] w']; simpl in *.
  - apply Hk. exact Hm.
  - exact Hm.
Qed.

(** [connect] adds one to the count only when the count is within the
    limit, and leaves [_connecting] at zero whether it returns or
    raises. *)
Lemma Driver_connect_bound (force_close recycle : bool) (net : connect_result) (w : World) :
  pool_bound self w ->
  pool_bound self (snd (Driver_connect self force_close recycle net w)).
Proof.
  intros (d & Hd & Hc & Ho). unfold Driver_connect.
  step (get_driver_Some w self d Hd).
  destruct (Driver.total_connections d <=? Driver._max_connections d) eqn:Hle.
  - apply Z.leb_le in Hle. unfold Driver.total_connections in Hle.
    step (upd_driver_Some w self d (Driver.add_connecting 1) Hd).
    set (w1 := set_drivers _ w).
    assert (H1 : drivers w1 !! self = Some (Driver.add_connecting 1 d))
      by (simpl; apply lookup_insert_eq).
    unfold try_finally. destruct net as [frames | e]; simpl ws_connect.
    + step (eq_refl : new_socket (WebSocket.mk false frames []) w1 = (Ok _, _)).
      set (w2 := mkWorld _ _ _ _).
      assert (H2 : drivers w2 !! self = Some (Driver.add_connecting 1 d)) by exact H1.
      step (upd_driver_Some w2 self _ (Driver.add_open_connections 1) H2).
      set (w3 := set_drivers _ w2). unfold new_conn.
      set (w4 := mkWorld _ _ _ _).
      assert (H4 : drivers w4 !! self
                   = Some (Driver.add_open_connections 1 (Driver.add_connecting 1 d)))
        by (simpl; apply lookup_insert_eq).
      rewrite (upd_driver_Some w4 self _ (Driver.add_connecting (-1)) H4).
      eexists. split; [simpl; apply lookup_insert_eq |]. simpl. lia.
    + rewrite (bind_Raise _ _ w1 w1 e) by reflexivity.
      rewrite (upd_driver_Some w1 self _ (Driver.add_connecting (-1)) H1).
      eexists. split; [simpl; apply lookup_insert_eq |]. simpl. lia.
  - exists d. auto.
Qed.

Lemma Driver_recycle_bound (force_close recycle : bool) (net : connect_result) (w : World) :
  pool_bound self w ->
  pool_bound self (snd (Driver_recycle self force_close recycle net w)).
Proof.
  intros Hw. unfold Driver_recycle.
  apply bind_preserves.
  { unfold get_driver. destruct (drivers w !! self); exact Hw. }
  intros d w1 H1. apply bind_preserves.
  - destruct (Driver._reclaimed d) as [| c q].
    + destruct (_ <? _); [| exact H1].
      apply bind_preserves; [apply Driver_connect_bound; exact H1 |].
      intros a w2 H2. exact H2.
    + apply (shrinks_bound w1); [exact H1 | apply recycle_loop_shrinks].
  - intros [c |] w2 H2; exact H2.
Qed.

Lemma run_op_bound (o : pool_op) (w : World) :
  pool_bound self w -> pool_bound self (snd (run_op self o w)).
Proof.
  intros Hw. destruct o as [fc rc net | fc rc net | c | c]; simpl.
  - apply bind_preserves; [apply Driver_connect_bound; exact Hw | auto].
  - apply bind_preserves; [apply Driver_recycle_bound; exact Hw | auto].
  - apply (shrinks_bound w); [exact Hw | apply Driver_reclaim_shrinks].
  - apply (shrinks_bound w); [exact Hw | apply Connection_close_shrinks].
Qed.

Lemma run_ops_bound (os : list pool_op) :
  forall w : World, pool_bound self w -> pool_bound self (snd (run_ops self os w)).
Proof.
  induction os as [| o os IH]; intros w Hw; simpl.
  - exact Hw.
  - pose proof (run_op_bound o w Hw) as H1.
    destruct (run_op self o w) as [r w1]. simpl in H1.
    pose proof (IH w1 H1) as H2.
    destruct (run_ops self os w1) as [rs w2]. exact H2.
Qed.
End Bound.

Lemma fresh_world_bound : pool_bound pool fresh_world.
Proof. exists Driver.__init__. split; [reflexivity |]. simpl. lia. Qed.

(** X2: after every sequence of [connect], [recycle], [reclaim] and
    [close] calls on a fresh pool, each run to its end before the next,
    [_connecting + _open_connections] is at most one over
    [_max_connections]. *)
Theorem pool_total_at_most_one_over (os : list pool_op) :
  exists d : Driver.t,
    drivers (snd (run_ops pool os fresh_world)) !! pool = Some d
    /\ Driver.total_connections d <= Driver.max_connections d + 1.
Proof.
  destruct (run_ops_bound pool os fresh_world fresh_world_bound) as (d & Hd & Hc & Ho).
  exists d. split; [exact Hd |].
  unfold Driver.total_connections, Driver.max_connections. lia.
Qed.

(** ** The request codec *)

Lemma set_message_header_layout {S : Type} (s : S) (message mime_type : string) :
  match _set_message_header message mime_type s with
  | (Ok frame, s') =>
      s' = s /\ mime_type = "application/json"
      /\ exists len : byte,
           frame = (len :: encode_utf8 mime_type ++ encode_utf8 message)%list
           /\ Byte.to_N len = N.of_nat (length (encode_utf8 mime_type))
  | (Raise e, s') =>
      s' = s /\ mime_type <> "application/json" /\ e = UnsupportedEncoding
  end.
Proof.
  unfold _set_message_header.
  destruct (String.eqb_spec mime_type "application/json") as [-> | Hne].
  - simpl. split; [reflexivity |]. split; [reflexivity |].
    exists x10. split; reflexivity.
  - simpl. auto.
Qed.

Lemma finalize_message_layout {S : Type} (s : S) (message : Request.t)
    (processor : string) (session : option string) :
  match _finalize_message message processor session s with
  | (Ok frame, s') =>
      s' = s /\ exists m : Request.t,
        finalize_args message processor session s = (Ok m, s)
        /\ frame = framed (json_dumps (request_json m))
  | (Raise e, s') => s' = s /\ e = InvalidRequest
  end.
Proof.
  unfold _finalize_message, finalize_args, bind.
  destruct (String.eqb processor "session"); [destruct session |]; simpl; eauto.
Qed.

Lemma framed_layout (body : string) :
  exists len : byte,
    framed body = (len :: encode_utf8 "application/json" ++ encode_utf8 body)%list
    /\ Byte.to_N len = N.of_nat (length (encode_utf8 "application/json")).
Proof. exists x10. split; reflexivity. Qed.

(** C7: the frame [_set_message_header] builds is one byte whose value
    is the byte length of the MIME type name, then the bytes of that
    name, then the UTF-8 bytes of the body; with any MIME type other
    than application/json it raises [ValueError] and builds no frame.
    Every request the driver finalizes is framed this way around its
    serialized dict. *)
Theorem encode_request_frame (S : Type) (s : S) :
  (forall message mime_type : string,
     match _set_message_header message mime_type s with
     | (Ok frame, s') =>
         s' = s /\ mime_type = "application/json"
         /\ exists len : byte,
              frame = (len :: encode_utf8 mime_type ++ encode_utf8 message)%list
              /\ Byte.to_N len = N.of_nat (length (encode_utf8 mime_type))
     | (Raise e, s') =>
         s' = s /\ mime_type <> "application/json" /\ e = UnsupportedEncoding
     end)
  /\ (forall (message : Request.t) (processor : string) (session : option string),
        match _finalize_message message processor session s with
        | (Ok frame, s') =>
            exists (m : Request.t) (len : byte),
              finalize_args message processor session s = (Ok m, s)
              /\ frame = (len :: encode_utf8 "application/json"
                            ++ encode_utf8 (json_dumps (request_json m)))%list
              /\ Byte.to_N len = N.of_nat (length (encode_utf8 "application/json"))
        | (Raise e, s') => e = InvalidRequest
        end).
Proof.
  split.
  - intros message mime_type. apply set_message_header_layout.
  - intros message processor session.
    pose proof (finalize_message_layout s message processor session) as H.
    destruct (_finalize_message message processor session s) as [[frame | e] s'].
    + destruct H as (_ & m & Hm & ->).
      destruct (framed_layout (json_dumps (request_json m))) as (len & Hf & Hlen).
      exists m, len. auto.
    + apply H.
Qed.

(** ** Connection.submit *)

Lemma prepare_message_session {S : Type} (s : S)
    (gremlin : string) (bindings : json) (lang : string) (aliases : json)
    (op sid : string) (request_id : option string) (uuid4 : string) :
  _prepare_message gremlin bindings lang aliases op "session" (Some sid) request_id uuid4 s
  = (Ok (framed (json_dumps (request_json
           (Request.mk (id_or request_id uuid4) op "session"
              (eval_args gremlin bindings lang aliases ++ [("session", JStr sid)]))))), s).
Proof. reflexivity. Qed.

Lemma prepare_message_no_session {S : Type} (s : S)
    (gremlin : string) (bindings : json) (lang : string) (aliases : json)
    (op processor : string) (session : option string)
    (request_id : option string) (uuid4 : string) :
  processor <> "session" ->
  _prepare_message gremlin bindings lang aliases op processor session request_id uuid4 s
  = (Ok (framed (json_dumps (request_json
           (Request.mk (id_or request_id uuid4) op processor
              (eval_args gremlin bindings lang aliases))))), s).
Proof.
  intros Hne. apply String.eqb_neq in Hne.
  unfold _prepare_message, _finalize_message, finalize_args.
  rewrite Hne. reflexivity.
Qed.

Lemma prepare_message_absent {S : Type} (s : S)
    (gremlin : string) (bindings : json) (lang : string) (aliases : json)
    (op : string) (request_id : option string) (uuid4 : string) :
  _prepare_message gremlin bindings lang aliases op "session" None request_id uuid4 s
  = (Raise InvalidRequest, s).
Proof. reflexivity. Qed.

(** C8, as the code has it: with the session processor, [submit]
    without a session id raises before anything is sent; with any
    session id, the empty string included, it sends one frame whose
    [args] carry the id under the key session.  With another processor
    the frame is sent without the session id. *)
Theorem Connection_submit_session
    (w : World) (self : ref) (c : Connection.t) (s : WebSocket.t)
    (gremlin : string) (bindings : json) (lang : string) (aliases : option json)
    (op : string) (request_id : option string) (uuid4 : string) :
  conns w !! self = Some c ->
  sockets w !! Connection._ws c = Some s ->
  Connection_submit self gremlin bindings lang aliases op "session" None request_id uuid4 w
    = (Raise InvalidRequest, w)
  /\ (forall sid : string,
        Connection_submit self gremlin bindings lang aliases op "session" (Some sid)
          request_id uuid4 w
        = (Ok (AsyncResponseIter.__init__ (Connection._ws c) self c (Connection._username c)
                 (Connection._password c) "session" (Some sid)),
           sent (Connection._ws c) s
             (framed (json_dumps (request_json
                (Request.mk (id_or request_id uuid4) op "session"
                   (eval_args gremlin bindings lang (aliases_or_empty aliases)
                      ++ [("session", JStr sid)]))))) w))
  /\ (forall (processor : string) (session : option string),
        processor <> "session" ->
        Connection_submit self gremlin bindings lang aliases op processor session
          request_id uuid4 w
        = (Ok (AsyncResponseIter.__init__ (Connection._ws c) self c (Connection._username c)
                 (Connection._password c) processor session),
           sent (Connection._ws c) s
             (framed (json_dumps (request_json
                (Request.mk (id_or request_id uuid4) op processor
                   (eval_args gremlin bindings lang (aliases_or_empty aliases)))))) w)).
Proof.
  intros Hc Hs. repeat split.
  - unfold Connection_submit. step (get_conn_Some w self c Hc). cbv zeta.
    rewrite (bind_Raise _ _ _ _ _ (prepare_message_absent w _ _ _ _ _ _ _)).
    reflexivity.
  - intros sid. unfold Connection_submit. step (get_conn_Some w self c Hc). cbv zeta.
    step (prepare_message_session w gremlin bindings lang (aliases_or_empty aliases)
            op sid request_id uuid4).
    step (ws_send_bytes_Some w _ s (framed (json_dumps (request_json
           (Request.mk (id_or request_id uuid4) op "session"
              (eval_args gremlin bindings lang (aliases_or_empty aliases)
                 ++ [("session", JStr sid)]))))) Hs).
    reflexivity.
  - intros processor session Hne. unfold Connection_submit.
    step (get_conn_Some w self c Hc). cbv zeta.
    step (prepare_message_no_session w gremlin bindings lang (aliases_or_empty aliases)
            op processor session request_id uuid4 Hne).
    step (ws_send_bytes_Some w _ s (framed (json_dumps (request_json
           (Request.mk (id_or request_id uuid4) op processor
              (eval_args gremlin bindings lang (aliases_or_empty aliases)))))) Hs).
    reflexivity.
Qed.

Lemma Connection_submit_session_witness :
  Connection_submit 2%nat "g.V()" JNull "gremlin-groovy" None "eval" "session" None None
    "0b1c" one_connection_world
  = (Raise InvalidRequest, one_connection_world)
  /\ outbox_of 1%nat
       (snd (Connection_submit 2%nat "g.V()" JNull "gremlin-groovy" None "eval" "" None None
               "0b1c" one_connection_world))
     = Some [framed (json_dumps (request_json
               (Request.mk "0b1c" "eval" ""
                  (eval_args "g.V()" JNull "gremlin-groovy" (JDict [])))))].
Proof.
  destruct (Connection_submit_session one_connection_world 2%nat
              (Connection.mk 1%nat true false (Some pool) None None false)
              (WebSocket.mk false [] [])
              "g.V()" JNull "gremlin-groovy" None "eval" None "0b1c" eq_refl eq_refl)
    as (Habsent & _ & Hother).
  split.
  - exact Habsent.
  - rewrite (Hother "" None ltac:(discriminate)). reflexivity.
Defined.

(** C8 as stated fails on an empty session id: [submit] with the session
    processor and the empty string as session id raises nothing and
    sends its frame, with the empty id in [args]; and with the default
    processor a session id given is not in the [args] sent. *)
Lemma submit_empty_session_counterexample :
  outbox_of 1%nat one_connection_world = Some []
  /\ outbox_of 1%nat
       (snd (Connection_submit 2%nat "g.V()" JNull "gremlin-groovy" None "eval" "session"
               (Some "") None "0b1c" one_connection_world))
     = Some [framed (json_dumps (request_json
               (Request.mk "0b1c" "eval" "session"
                  (eval_args "g.V()" JNull "gremlin-groovy" (JDict [])
                     ++ [("session", JStr "")]))))]
  /\ outbox_of 1%nat
       (snd (Connection_submit 2%nat "g.V()" JNull "gremlin-groovy" None "eval" ""
               (Some "7f3a") None "0b1c" one_connection_world))
     = Some [framed (json_dumps (request_json
               (Request.mk "0b1c" "eval" ""
                  (eval_args "g.V()" JNull "gremlin-groovy" (JDict [])))))].
Proof. vm_compute. repeat split; reflexivity. Qed.

(** ** AsyncResponseIter *)

(** C5, as the code has it: on the frames 206, 206, 200 the consumer
    gets the three messages in order and then the end of the stream, and
    the third pull is the one that runs the disposition of the channel;
    on the frame 204 the consumer gets that one message, with the
    disposition run on this first pull, and then the end of the stream. *)
Theorem response_stream_frames (fc rc : bool) (m1 m2 m3 m4 : Message.t) :
  (results (pulls_of 4 (open_stream fc rc
      [with_status 206 m1; with_status 206 m2; with_status 200 m3]))
     = [Yield (with_status 206 m1); Yield (with_status 206 m2);
        Yield (with_status 200 m3); Stop]
   /\ closed_flags (pulls_of 4 (open_stream fc rc
      [with_status 206 m1; with_status 206 m2; with_status 200 m3]))
     = [false; false; true; true]
   /\ fates pool 2%nat (pulls_of 4 (open_stream fc rc
      [with_status 206 m1; with_status 206 m2; with_status 200 m3]))
     = [Some InUse; Some InUse; Some (disposition fc rc); Some (disposition fc rc)])
  /\ (results (pulls_of 4 (open_stream fc rc [with_status 204 m4]))
     = [Yield (with_status 204 m4); Stop]
   /\ closed_flags (pulls_of 4 (open_stream fc rc [with_status 204 m4])) = [true; true]
   /\ fates pool 2%nat (pulls_of 4 (open_stream fc rc [with_status 204 m4]))
     = [Some (disposition fc rc); Some (disposition fc rc)]).
Proof. destruct fc, rc; vm_compute; repeat split; reflexivity. Qed.

(** C5 as stated fails on the frame 204: the consumer gets one message,
    the 204 frame, before the end of the stream. *)
Lemma no_content_frame_is_yielded :
  results (pulls_of 4 (open_stream true false [Message.mk 204 JNull "" (JDict [])]))
  = [Yield (Message.mk 204 JNull "" (JDict [])); Stop].
Proof. vm_compute. reflexivity. Qed.

(** C6, at the failing input: on the frames 407, 200 the first pull
    never returns: the task that reads the 407 frame raises
    [AttributeError] at [self._authenticate], the consumer gets no
    message, and nothing is sent on the socket after the request.
    [Connection._authenticate] itself raises for every credential. *)
Theorem auth_challenge_stalls (fc rc : bool) (m1 m2 : Message.t) (n : nat) :
  results (pulls_of (S n) (open_stream fc rc [with_status 407 m1; with_status 200 m2]))
    = [Hangs (TaskRaised
         (AttributeError "'AsyncResponseIter' object has no attribute '_authenticate'"))]
  /\ outboxes 1%nat
       (pulls_of (S n) (open_stream fc rc [with_status 407 m1; with_status 200 m2]))
    = [outbox_of 1%nat (snd (open_stream fc rc [with_status 407 m1; with_status 200 m2]))]
  /\ (length <$>
        outbox_of 1%nat (snd (open_stream fc rc [with_status 407 m1; with_status 200 m2])))
    = Some 1%nat
  /\ (forall (S : Type) (s : S) (username password : option string) (processor : string)
        (session : option string),
        exists e : exn,
          Connection__authenticate username password processor session s = (Raise e, s)).
Proof.
  split; [| split; [| split]].
  - destruct fc, rc; vm_compute; reflexivity.
  - destruct fc, rc; vm_compute; reflexivity.
  - destruct fc, rc; vm_compute; reflexivity.
  - intros S s [u |] [p |] processor session; vm_compute; eauto.
Qed.

(** ** Driver.connect, let in and refused *)

Lemma add_connecting_around (d : Driver.t) :
  Driver.add_connecting (-1) (Driver.add_open_connections 1 (Driver.add_connecting 1 d))
  = Driver.add_open_connections 1 d.
Proof.
  destruct d. unfold Driver.add_connecting, Driver.add_open_connections. simpl.
  f_equal. lia.
Qed.

Lemma Driver_connect_opened (w : World) (self : ref) (d : Driver.t)
    (force_close recycle : bool) (frames : list Message.t) :
  drivers w !! self = Some d ->
  Driver.total_connections d <= Driver._max_connections d ->
  Driver_connect self force_close recycle (WsOpened frames) w
  = (Ok (S (next_ref w)), connected self force_close recycle frames d w).
Proof.
  intros Hd Hle. unfold Driver_connect.
  step (get_driver_Some w self d Hd).
  apply Z.leb_le in Hle. rewrite Hle.
  step (upd_driver_Some w self d (Driver.add_connecting 1) Hd).
  set (w1 := set_drivers _ w).
  assert (H1 : drivers w1 !! self = Some (Driver.add_connecting 1 d))
    by (simpl; apply lookup_insert_eq).
  unfold try_finally, ws_connect.
  step (eq_refl : new_socket (WebSocket.mk false frames []) w1 = (Ok _, _)).
  set (w2 := mkWorld _ _ _ _).
  assert (H2 : drivers w2 !! self = Some (Driver.add_connecting 1 d)) by exact H1.
  step (upd_driver_Some w2 self _ (Driver.add_open_connections 1) H2).
  set (w3 := set_drivers _ w2). unfold new_conn.
  set (w4 := mkWorld _ _ _ _).
  assert (H4 : drivers w4 !! self
               = Some (Driver.add_open_connections 1 (Driver.add_connecting 1 d)))
    by (simpl; apply lookup_insert_eq).
  rewrite (upd_driver_Some w4 self _ (Driver.add_connecting (-1)) H4).
  f_equal. unfold connected, set_drivers. subst w4 w3 w2 w1. simpl.
  rewrite !insert_insert_eq, add_connecting_around. reflexivity.
Qed.

(** X3: a [connect()] made while [_connecting + _open_connections] is at
    most [_max_connections] and whose transport opens returns a new
    connection, not closed, owned by the driver, with the flags asked
    for, on a new socket; it adds exactly one to [_open_connections] and
    leaves [_connecting], the deque and every other object as they
    were.  A [connect()] made over the limit raises the pool's error
    without touching the store, whatever the transport would do. *)
Theorem Driver_connect_contract (w : World) (self : ref) (d : Driver.t)
    (force_close recycle : bool) :
  drivers w !! self = Some d ->
  (Driver.total_connections d <= Driver._max_connections d ->
   forall frames : list Message.t,
     Driver_connect self force_close recycle (WsOpened frames) w
     = (Ok (S (next_ref w)), connected self force_close recycle frames d w))
  /\ (Driver._max_connections d < Driver.total_connections d ->
      forall net : connect_result,
        Driver_connect self force_close recycle net w = (Raise PoolExhausted, w)).
Proof.
  intros Hd. split.
  - intros Hle frames. apply Driver_connect_opened; assumption.
  - intros Hgt net. unfold Driver_connect.
    step (get_driver_Some w self d Hd).
    rewrite (not_le_leb _ _ Hgt). reflexivity.
Qed.

Lemma Driver_connect_contract_witness :
  Driver_connect pool true false (WsOpened []) fresh_world
  = (Ok 2%nat, connected pool true false [] Driver.__init__ fresh_world)
  /\ fst (Driver_connect pool true false (WsOpened []) over_limit_world)
     = Raise PoolExhausted.
Proof.
  split.
  - destruct (Driver_connect_contract fresh_world pool Driver.__init__ true false eq_refl)
      as [Hin _].
    apply Hin. vm_compute. discriminate.
  - destruct (Driver_connect_contract over_limit_world pool (Driver.mk [] 33 0 0 32 128)
                true false eq_refl) as [_ Hout].
    rewrite (Hout ltac:(vm_compute; reflexivity)). reflexivity.
Defined.

(** ** Reclaim, then recycle *)

Lemma discarded_set_reclaimed (k : nat) (q q' : list ref) (d : Driver.t) :
  discarded k q (Driver.set_reclaimed q' d) = discarded k q d.
Proof. reflexivity. Qed.

Lemma Driver_reclaim_live (w : World) (self conn : ref) (d : Driver.t) (c : Connection.t) :
  drivers w !! self = Some d ->
  conns w !! conn = Some c ->
  Driver.total_connections d <= Driver.max_connections d ->
  Connection._closed c = false ->
  Driver_reclaim self conn w
  = (Ok tt, set_drivers
              (insert self (Driver.set_reclaimed (Driver._reclaimed d ++ [conn]) d)) w).
Proof.
  intros Hd Hc Hle Hlive. apply Z.leb_le in Hle. unfold Driver_reclaim.
  step (get_driver_Some w self d Hd). step (get_conn_Some w conn c Hc).
  rewrite Hle, Hlive. erewrite upd_driver_Some by exact Hd. reflexivity.
Qed.

(** The [recycle()] that follows the [reclaim] of a live connection
    behind closed ones. *)
Lemma Driver_recycle_after_reclaim (w : World) (self conn : ref) (d : Driver.t)
    (c : Connection.t) (force_close recycle : bool) (net : connect_result) :
  drivers w !! self = Some d ->
  conns w !! conn = Some c ->
  Connection._closed c = false ->
  Forall (closed_in w) (Driver._reclaimed d) ->
  Driver_recycle self force_close recycle net
    (set_drivers (insert self (Driver.set_reclaimed (Driver._reclaimed d ++ [conn]) d)) w)
  = (Ok conn,
     set_drivers (insert self (discarded (length (Driver._reclaimed d)) [] d)) w).
Proof.
  intros Hd Hc Hlive Hq.
  set (w1 := set_drivers _ w).
  assert (H1 : drivers w1 !! self
               = Some (Driver.set_reclaimed (Driver._reclaimed d ++ [conn]) d))
    by (simpl; apply lookup_insert_eq).
  unfold Driver_recycle. step (get_driver_Some w1 self _ H1).
  change (Driver._reclaimed (Driver.set_reclaimed (Driver._reclaimed d ++ [conn]) d))
    with (Driver._reclaimed d ++ [conn])%list.
  destruct (Driver._reclaimed d ++ [conn])%list as [| a q] eqn:E;
    [destruct (Driver._reclaimed d); discriminate |].
  cbv iota. rewrite <- E.
  assert (Hlive1 : live_in w1 conn) by (exists c; split; assumption).
  step (recycle_loop_first_live self (Driver._reclaimed d) w1 _ conn [] None H1 Hq Hlive1).
  subst w1. rewrite set_drivers_twice, discarded_set_reclaimed. reflexivity.
Qed.

(** X4: a live connection given back with [reclaim] while the pool is
    within its limit is the one the next [recycle()] returns when every
    connection waiting before it in the deque is closed (or none is):
    [recycle()] discards those, one off [_open_connections] for each,
    and leaves the deque empty. *)
Theorem Driver_reclaim_then_recycle (w : World) (self conn : ref) (d : Driver.t)
    (c : Connection.t) (force_close recycle : bool) (net : connect_result) :
  drivers w !! self = Some d ->
  conns w !! conn = Some c ->
  Connection._closed c = false ->
  Driver.total_connections d <= Driver.max_connections d ->
  Forall (closed_in w) (Driver._reclaimed d) ->
  (Driver_reclaim self conn ;;; Driver_recycle self force_close recycle net) w
  = (Ok conn,
     set_drivers (insert self (discarded (length (Driver._reclaimed d)) [] d)) w).
Proof.
  intros Hd Hc Hlive Hle Hq.
  step (Driver_reclaim_live w self conn d c Hd Hc Hle Hlive).
  apply (Driver_recycle_after_reclaim w self conn d c); assumption.
Qed.

Lemma Driver_reclaim_then_recycle_witness :
  (Driver_reclaim pool 2%nat ;;; Driver_recycle pool false true (WsOpened []))
    one_connection_world
  = (Ok 2%nat, one_connection_world).
Proof.
  rewrite (Driver_reclaim_then_recycle one_connection_world pool 2%nat
             (Driver.mk [] 1 0 0 32 128)
             (Connection.mk 1%nat true false (Some pool) None None false)
             false true (WsOpened []) eq_refl eq_refl eq_refl).
  - vm_compute. reflexivity.
  - vm_compute. discriminate.
  - constructor.
Defined.

(** ** What the operations leave alone *)

Lemma bind_post {S A B} (P : S -> Prop) (m : M S A) (k : A -> M S B) (s : S) :
  P (snd (m s)) ->
  (forall a s', P s' -> P (snd (k a s'))) ->
  P (snd (bind m k s)).
Proof.
  intros Hm Hk. unfold bind. destruct (m s) as [[a | e] s']; simpl in *.
  - apply Hk. exact Hm.
  - exact Hm.
Qed.

Lemma try_finally_post {S A} (P : S -> Prop) (body : M S A) (fin : M S unit) (s : S) :
  P (snd (body s)) ->
  (forall s', P s' -> P (snd (fin s'))) ->
  P (snd (try_finally body fin s)).
Proof.
  intros Hb Hf. unfold try_finally. destruct (body s) as [r s1]. simpl in Hb.
  specialize (Hf s1 Hb). destruct (fin s1) as [[u | e] s2]; exact Hf.
Qed.

Section Keeps.
Variable R : Driver.t -> Driver.t -> Prop.
Hypothesis R_refl : forall d, R d d.
Hypothesis R_trans : forall a b c, R a b -> R b c -> R a c.

Lemma keeps_refl (w : World) : keeps R w w.
Proof. intros r d Hd. exists d. auto. Qed.

Lemma keeps_trans (w1 w2 w3 : World) :
  keeps R w1 w2 -> keeps R w2 w3 -> keeps R w1 w3.
Proof.
  intros H12 H23 r d Hd.
  destruct (H12 r d Hd) as (d2 & Hd2 & HR2).
  destruct (H23 r d2 Hd2) as (d3 & Hd3 & HR3).
  exists d3. eauto.
Qed.

Lemma keeps_same_drivers (w w' : World) : drivers w' = drivers w -> keeps R w w'.
Proof. intros E r d Hd. exists d. rewrite E. auto. Qed.

(** Extends [keeps R w0] over one more call. *)
Lemma keeps_step (w0 w w' : World) : keeps R w w' -> keeps R w0 w -> keeps R w0 w'.
Proof. intros H H0. apply (keeps_trans _ w); assumption. Qed.

Lemma upd_driver_keeps (r : ref) (f : Driver.t -> Driver.t) (w : World) :
  (forall x, R x (f x)) -> keeps R w (snd (upd_driver r f w)).
Proof.
  intros Hf. unfold upd_driver, bind, get_driver.
  destruct (drivers w !! r) as [x |] eqn:Hx; simpl; [| apply keeps_refl].
  intros r' d Hd. simpl.
  destruct (decide (r = r')) as [<- | Hne].
  - rewrite lookup_insert_eq. rewrite Hx in Hd. injection Hd as <-. eauto.
  - rewrite lookup_insert_ne by exact Hne. eauto.
Qed.

Lemma get_driver_same (r : ref) (w : World) : snd (get_driver r w) = w.
Proof. unfold get_driver. destruct (drivers w !! r); reflexivity. Qed.

Lemma get_conn_same (r : ref) (w : World) : snd (get_conn r w) = w.
Proof. unfold get_conn. destruct (conns w !! r); reflexivity. Qed.

Lemma get_socket_same (r : ref) (w : World) : snd (get_socket r w) = w.
Proof. unfold get_socket. destruct (sockets w !! r); reflexivity. Qed.

Section Open.
Hypothesis R_open : forall (k : Z) (x : Driver.t), R x (Driver.add_open_connections k x).

Lemma Connection_close_keeps (c : ref) (w0 w : World) :
  keeps R w0 w -> keeps R w0 (snd (Connection_close c w)).
Proof.
  intros H0. unfold Connection_close.
  apply bind_post; [rewrite get_conn_same; exact H0 |]. intros x w1 H1.
  apply bind_post.
  { apply (keeps_step _ w1); [| exact H1].
    apply keeps_same_drivers, upd_socket_drivers. }
  intros _ w2 H2. apply bind_post.
  { apply (keeps_step _ w2); [| exact H2].
    apply keeps_same_drivers, upd_conn_drivers. }
  intros _ w3 H3. destruct (Connection._driver x) as [d |]; [| exact H3].
  apply bind_post.
  - apply (keeps_step _ w3); [| exact H3]. apply upd_driver_keeps, R_open.
  - intros _ w4 H4. apply (keeps_step _ w4); [| exact H4].
    apply keeps_same_drivers, upd_conn_drivers.
Qed.

Lemma close_loop_keeps (self : ref) (q : list ref) :
  (forall (q' : list ref) (x : Driver.t), R x (Driver.set_reclaimed q' x)) ->
  forall w0 w : World, keeps R w0 w -> keeps R w0 (snd (close_loop self q w)).
Proof.
  intros R_deque. induction q as [| c q IH]; intros w0 w H0; simpl; [exact H0 |].
  apply bind_post.
  { apply (keeps_step _ w); [| exact H0]. apply upd_driver_keeps. intros x. apply R_deque. }
  intros _ w1 H1. apply bind_post; [apply Connection_close_keeps; exact H1 |].
  intros _ w2 H2. apply IH. exact H2.
Qed.

Section Deque.
Hypothesis R_deque : forall (q : list ref) (x : Driver.t), R x (Driver.set_reclaimed q x).

Lemma Driver_reclaim_keeps (self conn : ref) (w0 w : World) :
  keeps R w0 w -> keeps R w0 (snd (Driver_reclaim self conn w)).
Proof.
  intros H0. unfold Driver_reclaim.
  apply bind_post; [rewrite get_driver_same; exact H0 |]. intros d w1 H1.
  apply bind_post; [rewrite get_conn_same; exact H1 |]. intros c w2 H2.
  destruct (_ <=? _).
  - destruct (Connection._closed c); apply (keeps_step _ w2); try exact H2;
      apply upd_driver_keeps; intros x; [apply R_open | apply R_deque].
  - destruct (bool_decide _); [| exact H2].
    apply bind_post; [apply Connection_close_keeps; exact H2 |]. intros _ w3 H3.
    apply (keeps_step _ w3); [| exact H3]. apply upd_driver_keeps, R_open.
Qed.

Lemma Connection_reclaim_keeps (c : ref) (w0 w : World) :
  keeps R w0 w -> keeps R w0 (snd (Connection_reclaim c w)).
Proof.
  intros H0. unfold Connection_reclaim.
  apply bind_post; [rewrite get_conn_same; exact H0 |]. intros x w1 H1.
  destruct (Connection._driver x); [apply Driver_reclaim_keeps |]; exact H1.
Qed.

Lemma recycle_loop_keeps (self : ref) (q : list ref) :
  forall (conn0 : option ref) (w0 w : World),
    keeps R w0 w -> keeps R w0 (snd (recycle_loop self q conn0 w)).
Proof.
  induction q as [| c q IH]; intros conn0 w0 w H0; simpl; [exact H0 |].
  apply bind_post.
  { apply (keeps_step _ w); [| exact H0]. apply upd_driver_keeps. intros x. apply R_deque. }
  intros _ w1 H1. apply bind_post; [rewrite get_conn_same; exact H1 |]. intros x w2 H2.
  destruct (negb _); [exact H2 |].
  apply bind_post.
  - apply (keeps_step _ w2); [| exact H2]. apply upd_driver_keeps, R_open.
  - intros _ w3 H3. apply IH. exact H3.
Qed.

Section Connecting.
Hypothesis R_connecting : forall (k : Z) (x : Driver.t), R x (Driver.add_connecting k x).

Lemma Driver_connect_keeps (self : ref) (fc rc : bool) (net : connect_result)
    (w0 w : World) :
  keeps R w0 w -> keeps R w0 (snd (Driver_connect self fc rc net w)).
Proof.
  intros H0. unfold Driver_connect.
  apply bind_post; [rewrite get_driver_same; exact H0 |]. intros d w1 H1.
  destruct (_ <=? _); [| exact H1].
  apply bind_post.
  { apply (keeps_step _ w1); [| exact H1]. apply upd_driver_keeps, R_connecting. }
  intros _ w2 H2. apply try_finally_post.
  - apply bind_post.
    + destruct net as [frames | e]; exact H2.
    + intros ws w3 H3. apply bind_post.
      * apply (keeps_step _ w3); [| exact H3]. apply upd_driver_keeps, R_open.
      * intros _ w4 H4. exact H4.
  - intros w3 H3. apply (keeps_step _ w3); [| exact H3].
    apply upd_driver_keeps, R_connecting.
Qed.

Lemma Driver_recycle_keeps (self : ref) (fc rc : bool) (net : connect_result)
    (w0 w : World) :
  keeps R w0 w -> keeps R w0 (snd (Driver_recycle self fc rc net w)).
Proof.
  intros H0. unfold Driver_recycle.
  apply bind_post; [rewrite get_driver_same; exact H0 |]. intros d w1 H1.
  apply bind_post.
  - destruct (Driver._reclaimed d) as [| c q].
    + destruct (_ <? _); [| exact H1].
      apply bind_post; [apply Driver_connect_keeps; exact H1 |].
      intros a w2 H2. exact H2.
    + apply recycle_loop_keeps. exact H1.
  - intros [c |] w2 H2; exact H2.
Qed.

Lemma run_op_keeps (self : ref) (o : pool_op) (w0 w : World) :
  keeps R w0 w -> keeps R w0 (snd (run_op self o w)).
Proof.
  intros H0. destruct o as [fc rc net | fc rc net | c | c]; simpl.
  - apply bind_post; [apply Driver_connect_keeps; exact H0 | auto].
  - apply bind_post; [apply Driver_recycle_keeps; exact H0 | auto].
  - apply Driver_reclaim_keeps. exact H0.
  - apply Connection_close_keeps. exact H0.
Qed.

Lemma run_ops_keeps (self : ref) (os : list pool_op) :
  forall w0 w : World, keeps R w0 w -> keeps R w0 (snd (run_ops self os w)).
Proof.
  induction os as [| o os IH]; intros w0 w H0; simpl; [exact H0 |].
  pose proof (run_op_keeps self o w0 w H0) as H1.
  destruct (run_op self o w) as [r w1]. simpl in H1.
  pose proof (IH w0 w1 H1) as H2.
  destruct (run_ops self os w1) as [rs w2]. exact H2.
Qed.
End Connecting.
End Deque.
End Open.
End Keeps.

Lemma get_self_bind {B} (k : AsyncResponseIter.t -> M IterState B) (st : IterState) :
  bind get_self k st = k (fst st) st.
Proof. reflexivity. Qed.

Section IterKeeps.
Variable R : Driver.t -> Driver.t -> Prop.
Hypothesis R_refl : forall d, R d d.
Hypothesis R_trans : forall a b c, R a b -> R b c -> R a c.
Hypothesis R_open : forall (k : Z) (x : Driver.t), R x (Driver.add_open_connections k x).
Variable b : bool.
Hypothesis reclaim_allowed :
  b = true \/ forall (q : list ref) (x : Driver.t), R x (Driver.set_reclaimed q x).
Variable w0 : World.

Lemma lift_inv {A} (m : M World A) (st : IterState) :
  (forall w, keeps R w0 w -> keeps R w0 (snd (m w))) ->
  stream_inv R b w0 st -> stream_inv R b w0 (snd (lift m st)).
Proof.
  intros Hm [Hk Hb]. destruct st as [i w]. unfold lift.
  specialize (Hm w Hk). destruct (m w) as [r w']. split; assumption.
Qed.

Lemma upd_self_inv (f : AsyncResponseIter.t -> AsyncResponseIter.t) (st : IterState) :
  (forall i, AsyncResponseIter._force_close (f i) = AsyncResponseIter._force_close i) ->
  stream_inv R b w0 st -> stream_inv R b w0 (snd (upd_self f st)).
Proof.
  intros Hf [Hk Hb]. destruct st as [i w]. split; [exact Hk |].
  simpl. rewrite Hf. exact Hb.
Qed.

Lemma put_nowait_inv (x : option Message.t) (st : IterState) :
  stream_inv R b w0 st -> stream_inv R b w0 (snd (put_nowait x st)).
Proof. apply upd_self_inv. reflexivity. Qed.

Lemma AsyncResponseIter_close_inv (st : IterState) :
  stream_inv R b w0 st -> stream_inv R b w0 (snd (AsyncResponseIter_close st)).
Proof.
  intros H. unfold AsyncResponseIter_close.
  apply bind_post; [apply upd_self_inv; [reflexivity | exact H] |]. intros _ st1 H1.
  rewrite get_self_bind.
  destruct (AsyncResponseIter._conn (fst st1)) as [c |]; [| exact H1].
  apply bind_post.
  - apply lift_inv; [| exact H1]. intros w. apply Connection_close_keeps; assumption.
  - intros _ st3 H3. apply upd_self_inv; [reflexivity | exact H3].
Qed.

Lemma term_inv (st : IterState) : stream_inv R b w0 st -> stream_inv R b w0 (snd (term st)).
Proof.
  intros H. unfold term.
  apply bind_post; [apply upd_self_inv; [reflexivity | exact H] |]. intros _ st1 H1.
  rewrite get_self_bind.
  destruct (AsyncResponseIter._force_close (fst st1)) eqn:Hfc.
  - apply AsyncResponseIter_close_inv. exact H1.
  - destruct reclaim_allowed as [Hb | R_deque].
    + destruct H1 as [_ Hb1]. congruence.
    + destruct (AsyncResponseIter._recycle (fst st1)); [| exact H1].
      destruct (AsyncResponseIter._conn (fst st1)) as [c |]; [| exact H1].
      apply lift_inv; [| exact H1]. intros w'.
      apply Connection_reclaim_keeps; assumption.
Qed.

Lemma parse_message_inv (message : Message.t) (st : IterState) :
  stream_inv R b w0 st -> stream_inv R b w0 (snd (parse_message message st)).
Proof.
  intros H. unfold parse_message. cbv zeta.
  destruct (_ || _).
  - apply bind_post; [apply put_nowait_inv; exact H |]. intros _ st1 H1.
    destruct (negb _); [| exact H1].
    apply bind_post; [apply term_inv; exact H1 |]. intros _ st2 H2.
    apply put_nowait_inv. exact H2.
  - destruct (_ =? 407).
    + unfold getattr_self. destruct (existsb _ _); exact H.
    + apply bind_post; [apply term_inv; exact H |]. intros _ st1 H1. exact H1.
Qed.

Lemma ws_receive_keeps (ws : ref) (w : World) :
  keeps R w0 w -> keeps R w0 (snd (ws_receive ws w)).
Proof.
  intros H. unfold ws_receive.
  apply bind_post; [rewrite get_socket_same; exact H |]. intros s w1 H1.
  destruct (WebSocket.inbox s); [exact H1 |].
  apply bind_post.
  - apply (keeps_step R R_trans _ w1); [| exact H1].
    apply keeps_same_drivers; [exact R_refl | apply upd_socket_drivers].
  - intros _ w2 H2. exact H2.
Qed.

Lemma _parse_data_inv (st : IterState) : stream_inv R b w0 st -> stream_inv R b w0 (snd (_parse_data st)).
Proof.
  intros H. unfold _parse_data.
  pose proof (lift_inv (ws_receive (AsyncResponseIter._ws (fst st))) st
                (ws_receive_keeps _) H) as H1.
  destruct (lift _ st) as [[[message |] | e] st1]; simpl in H1; try exact H1.
  pose proof (parse_message_inv message st1 H1) as H2.
  destruct (parse_message message st1) as [[u | e] st2]; exact H2.
Qed.

Lemma get_nowait_inv (st st' : IterState) (x : option Message.t) :
  get_nowait st = Some (x, st') -> stream_inv R b w0 st -> stream_inv R b w0 st'.
Proof.
  unfold get_nowait. destruct (AsyncResponseIter._response_queue (fst st)); [discriminate |].
  intros [= _ <-] [Hk Hb]. split; assumption.
Qed.

Lemma fetch_data_inv (st : IterState) : stream_inv R b w0 st -> stream_inv R b w0 (snd (fetch_data st)).
Proof.
  intros H. unfold fetch_data.
  destruct (get_nowait st) as [[x st'] |] eqn:E.
  - apply (get_nowait_inv st st' x E H).
  - pose proof (_parse_data_inv st H) as H1.
    destruct (_parse_data st) as [task st1]. simpl in H1.
    destruct (get_nowait st1) as [[x st2] |] eqn:E1.
    + apply (get_nowait_inv st1 st2 x E1 H1).
    + exact H1.
Qed.

Lemma __anext___inv (st : IterState) : stream_inv R b w0 st -> stream_inv R b w0 (snd (__anext__ st)).
Proof.
  intros H. unfold __anext__. pose proof (fetch_data_inv st H) as H1.
  destruct (fetch_data st) as [[[msg |] | task] st1]; exact H1.
Qed.

Lemma pulls_inv (n : nat) :
  forall st : IterState, stream_inv R b w0 st -> Forall (fun p => stream_inv R b w0 (snd p)) (pulls n st).
Proof.
  induction n as [| n IH]; intros st H; simpl; [constructor |].
  pose proof (__anext___inv st H) as H1.
  destruct (__anext__ st) as [[msg | | task] st1]; simpl in H1.
  - constructor; [exact H1 | apply IH; exact H1].
  - constructor; [exact H1 | constructor].
  - constructor; [exact H1 | constructor].
Qed.
End IterKeeps.

Lemma lift_snd_post {X A} (P : World -> Prop) (m : M World A) (st : X * World) :
  P (snd (m (snd st))) -> P (snd (snd (lift_snd m st))).
Proof. destruct st as [x w]. unfold lift_snd. simpl. destruct (m w). auto. Qed.

Lemma upd_fst_world {X} (f : X -> X) (st : X * World) : snd (snd (upd_fst f st)) = snd st.
Proof. destruct st. reflexivity. Qed.

Lemma prepare_message_same {S : Type} (s : S)
    (gremlin : string) (bindings : json) (lang : string) (aliases : json)
    (op processor : string) (session : option string)
    (request_id : option string) (uuid4 : string) :
  snd (_prepare_message gremlin bindings lang aliases op processor session request_id uuid4 s)
  = s.
Proof.
  unfold _prepare_message, _finalize_message, finalize_args, bind.
  destruct (String.eqb processor "session"); [destruct session |]; reflexivity.
Qed.

Lemma Connection_submit_drivers (self : ref) (gremlin : string) (bindings : json)
    (lang : string) (aliases : option json) (op processor : string)
    (session : option string) (request_id : option string) (uuid4 : string) (w : World) :
  drivers (snd (Connection_submit self gremlin bindings lang aliases op processor session
                  request_id uuid4 w)) = drivers w.
Proof.
  unfold Connection_submit.
  apply (bind_post (fun w' => drivers w' = drivers w)).
  { rewrite get_conn_same. reflexivity. }
  intros c w1 H1. cbv zeta.
  apply (bind_post (fun w' => drivers w' = drivers w)).
  { rewrite prepare_message_same. exact H1. }
  intros message w2 H2.
  apply (bind_post (fun w' => drivers w' = drivers w)).
  { unfold ws_send_bytes. rewrite upd_socket_drivers. exact H2. }
  intros _ w3 H3. exact H3.
Qed.

Section DriverCloseKeeps.
Variable R : Driver.t -> Driver.t -> Prop.
Hypothesis R_refl : forall d, R d d.
Hypothesis R_trans : forall a b c, R a b -> R b c -> R a c.
Hypothesis R_open : forall (k : Z) (x : Driver.t), R x (Driver.add_open_connections k x).
Hypothesis R_deque : forall (q : list ref) (x : Driver.t), R x (Driver.set_reclaimed q x).

Lemma Driver_close_keeps (self : ref) (w0 : World) (st : DriverState) :
  keeps R w0 (snd st) -> keeps R w0 (snd (snd (Driver_close self st))).
Proof.
  intros H. unfold Driver_close.
  apply (bind_post (fun st' => keeps R w0 (snd st'))).
  { apply lift_snd_post. rewrite get_driver_same. exact H. }
  intros d st1 H1.
  apply (bind_post (fun st' => keeps R w0 (snd st'))).
  { apply lift_snd_post. apply close_loop_keeps; assumption. }
  intros _ st2 H2.
  apply (bind_post (fun st' => keeps R w0 (snd st'))); [exact H2 |].
  intros rest st3 H3.
  destruct (DriverRest._client_session rest); [| exact H3].
  apply (bind_post (fun st' => keeps R w0 (snd st'))).
  { rewrite upd_fst_world. exact H3. }
  intros _ st4 H4.
  apply (bind_post (fun st' => keeps R w0 (snd st'))).
  { rewrite upd_fst_world. exact H4. }
  intros _ st5 H5. rewrite upd_fst_world. exact H5.
Qed.
End DriverCloseKeeps.

Lemma same_config_refl (d : Driver.t) : same_config d d.
Proof. repeat split. Qed.

Lemma same_config_trans (a b c : Driver.t) :
  same_config a b -> same_config b c -> same_config a c.
Proof. unfold same_config. intros (? & ? & ?) (? & ? & ?). repeat split; congruence. Qed.

Lemma same_deque_trans (a b c : Driver.t) :
  same_deque a b -> same_deque b c -> same_deque a c.
Proof. unfold same_deque. congruence. Qed.

(** X5: no call of the driver changes a driver's [_max_connections],
    [_max_inflight_messages] or [_inflight_messages]: through [connect],
    [recycle], [reclaim], [Connection.close], [submit], the pulls of a
    response iterator and [Driver.close], every driver of the store
    keeps the two limits and the count of messages in flight it had. *)
Theorem limits_never_change :
  (forall (self : ref) (os : list pool_op) (w : World),
     keeps same_config w (snd (run_ops self os w)))
  /\ (forall (self : ref) (gremlin : string) (bindings : json) (lang : string)
        (aliases : option json) (op processor : string) (session : option string)
        (request_id : option string) (uuid4 : string) (w : World),
        keeps same_config w
          (snd (Connection_submit self gremlin bindings lang aliases op processor session
                  request_id uuid4 w)))
  /\ (forall (n : nat) (st : IterState),
        Forall (fun p => keeps same_config (snd st) (snd (snd p))) (pulls n st))
  /\ (forall (self : ref) (st : DriverState),
        keeps same_config (snd st) (snd (snd (Driver_close self st)))).
Proof.
  pose proof same_config_refl as Hr. pose proof same_config_trans as Ht.
  assert (Ho : forall k x, same_config x (Driver.add_open_connections k x))
    by (intros; repeat split).
  assert (Hq : forall q x, same_config x (Driver.set_reclaimed q x))
    by (intros; repeat split).
  assert (Hc : forall k x, same_config x (Driver.add_connecting k x))
    by (intros; repeat split).
  split; [| split; [| split]].
  - intros self os w. apply run_ops_keeps; try assumption. apply keeps_refl, Hr.
  - intros. apply keeps_same_drivers; [exact Hr | apply Connection_submit_drivers].
  - intros n st.
    pose proof (pulls_inv same_config Hr Ht Ho (AsyncResponseIter._force_close (fst st))
                  (or_intror Hq) (snd st) n st
                  (conj (keeps_refl same_config Hr (snd st)) eq_refl)) as H.
    eapply Forall_impl; [exact H |]. intros p [Hk _]. exact Hk.
  - intros self st. apply Driver_close_keeps; try assumption. apply keeps_refl, Hr.
Qed.

(** X6: a stream whose connection is marked [force_close] never puts a
    connection in a deque: whatever frames arrive, no pull of the
    iterator changes the deque of any driver. *)
Theorem force_close_never_pooled (n : nat) (i : AsyncResponseIter.t) (w : World) :
  AsyncResponseIter._force_close i = true ->
  Forall (fun p => keeps same_deque w (snd (snd p))) (pulls n (i, w)).
Proof.
  intros Hfc.
  assert (Hr : forall d, same_deque d d) by reflexivity.
  assert (Ho : forall k x, same_deque x (Driver.add_open_connections k x)) by reflexivity.
  pose proof (pulls_inv same_deque Hr same_deque_trans Ho true (or_introl eq_refl) w n (i, w)
                (conj (keeps_refl same_deque Hr w) Hfc)) as H.
  eapply Forall_impl; [exact H |]. intros p [Hk _]. exact Hk.
Qed.

Lemma force_close_never_pooled_witness :
  Forall (fun p => keeps same_deque
                     (stream_world true true [Message.mk 200 JNull "" (JDict [])])
                     (snd (snd p)))
    (pulls 2 (stream_iter true true,
              stream_world true true [Message.mk 200 JNull "" (JDict [])])).
Proof. apply force_close_never_pooled. reflexivity. Defined.

(** ** Connection.close, in general *)

Lemma Connection_close_owned (w : World) (c : ref) (x : Connection.t) (s : WebSocket.t)
    (d0 : ref) (dr : Driver.t) :
  conns w !! c = Some x ->
  sockets w !! Connection._ws x = Some s ->
  Connection._driver x = Some d0 ->
  drivers w !! d0 = Some dr ->
  Connection_close c w = (Ok tt, closed_world c x s d0 dr w).
Proof.
  intros Hc Hs Hown Hd. unfold Connection_close, ws_close.
  step (get_conn_Some w c x Hc).
  step (upd_socket_Some w _ s
          (fun s => WebSocket.mk true (WebSocket.inbox s) (WebSocket.outbox s)) Hs).
  set (w1 := set_sockets _ w).
  step (upd_conn_Some w1 c x (Connection.set_closed true) Hc).
  set (w2 := set_conns _ w1).
  rewrite ?bind_bind, Hown.
  step (upd_driver_Some w2 d0 dr (Driver.add_open_connections (-1)) Hd).
  set (w3 := set_drivers _ w2).
  assert (Hc3 : conns w3 !! c = Some (Connection.set_closed true x))
    by (simpl; apply lookup_insert_eq).
  rewrite (upd_conn_Some w3 c _ (Connection.set_driver None) Hc3).
  f_equal. unfold closed_world, set_conns. subst w3 w2 w1. simpl.
  rewrite insert_insert_eq. reflexivity.
Qed.

Lemma Connection_close_unowned (w : World) (c : ref) (x : Connection.t) (s : WebSocket.t) :
  conns w !! c = Some x ->
  sockets w !! Connection._ws x = Some s ->
  Connection._driver x = None ->
  Connection_close c w
  = (Raise (AttributeError "'NoneType' object has no attribute '_open_connections'"),
     half_closed_world c x s w).
Proof.
  intros Hc Hs Hown. unfold Connection_close, ws_close.
  step (get_conn_Some w c x Hc).
  step (upd_socket_Some w _ s
          (fun s => WebSocket.mk true (WebSocket.inbox s) (WebSocket.outbox s)) Hs).
  set (w1 := set_sockets _ w).
  step (upd_conn_Some w1 c x (Connection.set_closed true) Hc).
  rewrite Hown. reflexivity.
Qed.

(** X7: [Connection.close] on a connection that a driver owns closes
    its socket, marks it closed, takes exactly one off the owner's
    [_open_connections] and drops the reference to the owner, touching
    nothing else; on a connection that no driver owns (made without a
    driver, or closed before) it closes the socket and marks the
    connection, then raises [AttributeError], and no count changes. *)
Theorem Connection_close_contract (w : World) (c : ref) (x : Connection.t)
    (s : WebSocket.t) :
  conns w !! c = Some x ->
  sockets w !! Connection._ws x = Some s ->
  (forall (d0 : ref) (dr : Driver.t),
     Connection._driver x = Some d0 ->
     drivers w !! d0 = Some dr ->
     Connection_close c w = (Ok tt, closed_world c x s d0 dr w))
  /\ (Connection._driver x = None ->
      Connection_close c w
      = (Raise (AttributeError "'NoneType' object has no attribute '_open_connections'"),
         half_closed_world c x s w)).
Proof.
  intros Hc Hs. split.
  - intros d0 dr Hown Hd. apply Connection_close_owned; assumption.
  - apply Connection_close_unowned; assumption.
Qed.

Lemma Connection_close_contract_witness :
  open_of pool (snd (Connection_close 2%nat one_connection_world)) = Some 0
  /\ open_of pool (snd (Connection_close 68%nat over_limit_world)) = Some 33.
Proof.
  split.
  - destruct (Connection_close_contract one_connection_world 2%nat
                (Connection.mk 1%nat true false (Some pool) None None false)
                (WebSocket.mk false [] []) eq_refl eq_refl) as [Hown _].
    rewrite (Hown pool (Driver.mk [] 1 0 0 32 128) eq_refl eq_refl). reflexivity.
  - destruct (Connection_close_contract over_limit_world 68%nat
                (Connection.mk 67%nat true false None None None false)
                (WebSocket.mk false [] []) eq_refl eq_refl) as [_ Hnone].
    rewrite (Hnone eq_refl). reflexivity.
Defined.

(** X8: after a [close()] that returned, [Connection.reclaim] on the
    same connection does nothing: a connection closed by [close()] can
    not come back to the deque through its own [reclaim()]. *)
Theorem close_then_reclaim_is_noop (w w1 : World) (c : ref) :
  Connection_close c w = (Ok tt, w1) ->
  Connection_reclaim c w1 = (Ok tt, w1).
Proof.
  unfold Connection_close, ws_close, upd_socket, upd_conn, upd_driver,
    get_conn, get_socket, get_driver, bind, modify, from_store, ret, raise.
  destruct (conns w !! c) as [x |] eqn:Hc; simpl; [| discriminate].
  destruct (sockets w !! Connection._ws x) as [s |] eqn:Hs; simpl; [| discriminate].
  rewrite Hc. simpl.
  destruct (Connection._driver x) as [d0 |] eqn:Hown; simpl; [| discriminate].
  destruct (drivers w !! d0) as [dr |] eqn:Hd; simpl; [| discriminate].
  rewrite lookup_insert_eq. simpl. intros [= <-].
  unfold Connection_reclaim, get_conn, bind. simpl.
  rewrite lookup_insert_eq. reflexivity.
Qed.

Lemma close_then_reclaim_is_noop_witness :
  Connection_reclaim 2%nat (snd (Connection_close 2%nat one_connection_world))
  = (Ok tt, snd (Connection_close 2%nat one_connection_world)).
Proof.
  apply (close_then_reclaim_is_noop one_connection_world). vm_compute. reflexivity.
Defined.

(** ** Driver.close *)

Lemma owned_in_closed_world (self : ref) (w : World) (c c' : ref) (x : Connection.t)
    (s : WebSocket.t) (d0 : ref) (dr : Driver.t) :
  c' <> c -> owned_in self w c' -> owned_in self (closed_world c x s d0 dr w) c'.
Proof.
  intros Hne (x' & Hx' & Hown & Hs'). exists x'. simpl.
  rewrite lookup_insert_ne by congruence. split; [exact Hx' |]. split; [exact Hown |].
  destruct (decide (Connection._ws x = Connection._ws x')) as [E | E].
  - rewrite E, lookup_insert_eq. eauto.
  - rewrite lookup_insert_ne by exact E. exact Hs'.
Qed.

Lemma closed_in_closed_world (w : World) (c c0 : ref) (x : Connection.t)
    (s : WebSocket.t) (d0 : ref) (dr : Driver.t) :
  closed_in w c0 -> closed_in (closed_world c x s d0 dr w) c0.
Proof.
  intros (x0 & Hx0 & Hcl). unfold closed_in. simpl.
  destruct (decide (c = c0)) as [-> | Hne].
  - rewrite lookup_insert_eq. eauto.
  - rewrite lookup_insert_ne by exact Hne. eauto.
Qed.

Section DriverClose.
Variable self : ref.

(** The loop of [Driver.close] on a deque of connections of the driver,
    each once in the deque. *)
Lemma close_loop_drains (q : list ref) :
  forall (w : World) (d : Driver.t),
    drivers w !! self = Some d ->
    Driver._reclaimed d = q ->
    NoDup q ->
    Forall (owned_in self w) q ->
    exists w' : World,
      close_loop self q w = (Ok tt, w')
      /\ drivers w' !! self = Some (discarded (length q) [] d)
      /\ Forall (closed_in w') q
      /\ (forall c0, closed_in w c0 -> closed_in w' c0)
      /\ (forall c0, c0 ∉ q -> conns w' !! c0 = conns w !! c0).
Proof.
  induction q as [| c q IH]; intros w d Hd Hq Hnd Hall.
  - exists w. simpl. split; [reflexivity |]. split; [| auto].
    rewrite Hd. f_equal. rewrite <- discarded_pop, <- Hq. destruct d; reflexivity.
  - apply NoDup_cons in Hnd as [Hnotin Hnd].
    apply Forall_cons in Hall as [(x & Hx & Hown & [s Hs]) Hall].
    simpl close_loop.
    step (upd_driver_Some w self d (Driver.set_reclaimed q) Hd).
    set (w1 := set_drivers _ w).
    assert (H1 : drivers w1 !! self = Some (Driver.set_reclaimed q d))
      by (simpl; apply lookup_insert_eq).
    step (Connection_close_owned w1 c x s self _ Hx Hs Hown H1).
    set (w2 := closed_world _ _ _ _ _ w1).
    assert (H2 : drivers w2 !! self
                 = Some (Driver.add_open_connections (-1) (Driver.set_reclaimed q d)))
      by (simpl; apply lookup_insert_eq).
    assert (Hall2 : Forall (owned_in self w2) q).
    { apply Forall_forall. intros c' Hin.
      apply owned_in_closed_world; [intros ->; contradiction |].
      apply (proj1 (Forall_forall _ _) Hall c' Hin). }
    destruct (IH w2 _ H2 eq_refl Hnd Hall2) as (w' & Hrun & Hd' & Hcl & Hmono & Hframe).
    exists w'. split; [exact Hrun |]. split; [| split; [| split]].
    + rewrite Hd', discarded_step. reflexivity.
    + constructor; [| exact Hcl]. apply Hmono.
      exists (Connection.set_driver None (Connection.set_closed true x)).
      split; [simpl; apply lookup_insert_eq | reflexivity].
    + intros c0 H0. apply Hmono, closed_in_closed_world. exact H0.
    + intros c0 H0. apply not_elem_of_cons in H0 as [Hne H0].
      rewrite (Hframe c0 H0). simpl. apply lookup_insert_ne. congruence.
Qed.

(** The loop on a deque in which a connection without driver stands
    behind connections of the driver. *)
Lemma close_loop_stale (c : ref) (x : Connection.t) (post : list ref) (pre : list ref) :
  forall (w : World) (d : Driver.t),
    drivers w !! self = Some d ->
    NoDup pre ->
    Forall (owned_in self w) pre ->
    conns w !! c = Some x ->
    Connection._driver x = None ->
    is_Some (sockets w !! Connection._ws x) ->
    exists w' : World,
      close_loop self (pre ++ c :: post) w
      = (Raise (AttributeError "'NoneType' object has no attribute '_open_connections'"), w')
      /\ drivers w' !! self = Some (discarded (length pre) post d)
      /\ Forall (closed_in w') pre
      /\ (forall c0, c0 ∉ pre -> c0 <> c -> conns w' !! c0 = conns w !! c0).
Proof.
  induction pre as [| p pre IH]; intros w d Hd Hnd Hall Hx Hnone [s Hs].
  - simpl.
    step (upd_driver_Some w self d (Driver.set_reclaimed post) Hd).
    set (w1 := set_drivers _ w).
    rewrite (bind_Raise _ _ _ _ _ (Connection_close_unowned w1 c x s Hx Hs Hnone)).
    eexists. split; [reflexivity |]. split; [| split; [constructor |]].
    + simpl. rewrite lookup_insert_eq, discarded_pop. reflexivity.
    + intros c0 _ Hne. simpl. apply lookup_insert_ne. congruence.
  - apply NoDup_cons in Hnd as [Hnotin Hnd].
    apply Forall_cons in Hall as [(y & Hy & Hown & [t Ht]) Hall].
    assert (Hpc : p <> c) by (intros ->; congruence).
    simpl close_loop.
    step (upd_driver_Some w self d (Driver.set_reclaimed (pre ++ c :: post)) Hd).
    set (w1 := set_drivers _ w).
    assert (H1 : drivers w1 !! self = Some (Driver.set_reclaimed (pre ++ c :: post) d))
      by (simpl; apply lookup_insert_eq).
    step (Connection_close_owned w1 p y t self _ Hy Ht Hown H1).
    set (w2 := closed_world _ _ _ _ _ w1).
    assert (H2 : drivers w2 !! self
                 = Some (Driver.add_open_connections (-1)
                           (Driver.set_reclaimed (pre ++ c :: post) d)))
      by (simpl; apply lookup_insert_eq).
    assert (Hall2 : Forall (owned_in self w2) pre).
    { apply Forall_forall. intros c' Hin.
      apply owned_in_closed_world; [intros ->; contradiction |].
      apply (proj1 (Forall_forall _ _) Hall c' Hin). }
    assert (Hx2 : conns w2 !! c = Some x).
    { simpl. rewrite lookup_insert_ne by exact Hpc. exact Hx. }
    assert (Hs2 : is_Some (sockets w2 !! Connection._ws x)).
    { simpl. destruct (decide (Connection._ws y = Connection._ws x)) as [E | E].
      - rewrite E, lookup_insert_eq. eauto.
      - rewrite lookup_insert_ne by exact E. eauto. }
    destruct (IH w2 _ H2 Hnd Hall2 Hx2 Hnone Hs2) as (w' & Hrun & Hd' & Hcl & Hframe).
    exists w'. split; [exact Hrun |]. split; [| split].
    + rewrite Hd', discarded_step. reflexivity.
    + constructor; [| exact Hcl].
      destruct (decide (p ∈ pre)) as [Hin | Hout]; [contradiction |].
      exists (Connection.set_driver None (Connection.set_closed true y)).
      rewrite (Hframe p Hout Hpc). split; [simpl; apply lookup_insert_eq | reflexivity].
    + intros c0 H0 Hne. apply not_elem_of_cons in H0 as [Hne0 H0].
      rewrite (Hframe c0 H0 Hne). simpl. apply lookup_insert_ne. congruence.
Qed.
End DriverClose.

(** X9: [Driver.close] on a pool whose deque holds connections of its
    own, each once, closes every one of them, takes one off
    [_open_connections] for each, empties the deque, closes the client
    session, drops it and sets [_closed]; connections that are not in
    the deque are left as they are. *)
Theorem Driver_close_drains (self : ref) (w : World) (d : Driver.t) (rest : DriverRest.t) :
  drivers w !! self = Some d ->
  NoDup (Driver._reclaimed d) ->
  Forall (owned_in self w) (Driver._reclaimed d) ->
  DriverRest._client_session rest = Some tt ->
  exists w' : World,
    Driver_close self (rest, w) = (Ok tt, (DriverRest.mk true None (Some true), w'))
    /\ drivers w' !! self = Some (discarded (length (Driver._reclaimed d)) [] d)
    /\ Forall (closed_in w') (Driver._reclaimed d)
    /\ (forall c0, c0 ∉ Driver._reclaimed d -> conns w' !! c0 = conns w !! c0).
Proof.
  intros Hd Hnd Hall Hsess.
  destruct (close_loop_drains self (Driver._reclaimed d) w d Hd eq_refl Hnd Hall)
    as (w' & Hrun & Hd' & Hcl & _ & Hframe).
  exists w'. split; [| auto].
  unfold Driver_close, bind, lift_snd, gets, upd_fst, modify.
  rewrite (get_driver_Some w self d Hd), Hrun. simpl. rewrite Hsess. reflexivity.
Qed.

Lemma Driver_close_drains_witness :
  exists w' : World,
    Driver_close pool (DriverRest.__init__, idle_pool_world)
    = (Ok tt, (DriverRest.mk true None (Some true), w'))
    /\ open_of pool w' = Some 0
    /\ Forall (closed_in w') [2%nat; 4%nat; 6%nat].
Proof.
  destruct (Driver_close_drains pool idle_pool_world
              (Driver.mk [2%nat; 4%nat; 6%nat] 3 0 0 32 128) DriverRest.__init__ eq_refl)
    as (w' & Hrun & Hd' & Hcl & _).
  - apply (bool_decide_unpack _). vm_compute. exact I.
  - simpl. repeat constructor.
    + exists (Connection.mk 1%nat false true (Some pool) None None false).
      repeat split; vm_compute; eauto.
    + exists (Connection.mk 3%nat false true (Some pool) None None false).
      repeat split; vm_compute; eauto.
    + exists (Connection.mk 5%nat false true (Some pool) None None false).
      repeat split; vm_compute; eauto.
  - reflexivity.
  - exists w'. split; [exact Hrun |]. split; [| exact Hcl].
    unfold open_of. rewrite Hd'. reflexivity.
Defined.

(** X10: when a connection that no driver owns any more (its user has
    closed it) waits in the deque behind connections of the pool,
    [Driver.close] closes those before it, then raises
    [AttributeError]: the client session is not closed, [_closed] is not
    set, and the connections behind it stay open in the deque. *)
Theorem Driver_close_stale (self : ref) (w : World) (d : Driver.t) (rest : DriverRest.t)
    (pre : list ref) (c : ref) (post : list ref) (x : Connection.t) :
  drivers w !! self = Some d ->
  Driver._reclaimed d = (pre ++ c :: post)%list ->
  NoDup pre ->
  Forall (owned_in self w) pre ->
  conns w !! c = Some x ->
  Connection._driver x = None ->
  is_Some (sockets w !! Connection._ws x) ->
  exists w' : World,
    Driver_close self (rest, w)
    = (Raise (AttributeError "'NoneType' object has no attribute '_open_connections'"),
       (rest, w'))
    /\ drivers w' !! self = Some (discarded (length pre) post d)
    /\ Forall (closed_in w') pre
    /\ (forall c0, c0 ∉ pre -> c0 <> c -> conns w' !! c0 = conns w !! c0).
Proof.
  intros Hd Hq Hnd Hall Hx Hnone Hs.
  destruct (close_loop_stale self c x post pre w d Hd Hnd Hall Hx Hnone Hs)
    as (w' & Hrun & Hrest).
  exists w'. split; [| exact Hrest].
  unfold Driver_close, bind, lift_snd.
  rewrite (get_driver_Some w self d Hd), Hq, Hrun. reflexivity.
Qed.

Lemma Driver_close_stale_witness :
  exists w' : World,
    Driver_close pool (DriverRest.__init__, idle_stale_world)
    = (Raise (AttributeError "'NoneType' object has no attribute '_open_connections'"),
       (DriverRest.__init__, w'))
    /\ reclaimed_of pool w' = Some [6%nat]
    /\ closed_of 6%nat w' = Some false.
Proof.
  destruct (Driver_close_stale pool idle_stale_world
              (Driver.mk [2%nat; 4%nat; 6%nat] 2 0 0 32 128) DriverRest.__init__
              [2%nat] 4%nat [6%nat]
              (Connection.mk 3%nat false true None None None true) eq_refl eq_refl)
    as (w' & Hrun & Hd' & _ & Hframe).
  - apply (bool_decide_unpack _). vm_compute. exact I.
  - repeat constructor.
    exists (Connection.mk 1%nat false true (Some pool) None None false).
    repeat split; vm_compute; eauto.
  - reflexivity.
  - reflexivity.
  - vm_compute. eauto.
  - exists w'. split; [exact Hrun |]. split.
    + unfold reclaimed_of. rewrite Hd'. reflexivity.
    + unfold closed_of. rewrite (Hframe 6%nat); [reflexivity | | discriminate].
      apply (bool_decide_unpack _). vm_compute. exact I.
Defined.

(** ** async with driver.get() *)

Lemma aenter_opened (self : ref) (w : World) (d : Driver.t) (frames : list Message.t) :
  drivers w !! self = Some d ->
  Driver.total_connections d <= Driver._max_connections d ->
  __aenter__ (WsOpened frames) (Driver_get self, w)
  = (Ok (S (next_ref w)),
     (ContextManager.mk (Some self) (Some (S (next_ref w))),
      connected self false false frames d w)).
Proof.
  intros Hd Hle. unfold __aenter__, bind, gets, lift_snd, upd_fst, modify. simpl.
  rewrite (Driver_connect_opened w self d false false frames Hd Hle). reflexivity.
Qed.

Lemma aexit_owned (cm : ContextManager.t) (w : World) (c : ref) (x : Connection.t)
    (s : WebSocket.t) (d0 : ref) (dr : Driver.t) :
  ContextManager._conn cm = Some c ->
  conns w !! c = Some x ->
  sockets w !! Connection._ws x = Some s ->
  Connection._driver x = Some d0 ->
  drivers w !! d0 = Some dr ->
  __aexit__ (cm, w) = (Ok tt, (ContextManager.mk None None, closed_world c x s d0 dr w)).
Proof.
  intros Hcm Hc Hs Hown Hd. unfold __aexit__, bind, gets, lift_snd, upd_fst, modify. simpl.
  rewrite Hcm, (Connection_close_owned w c x s d0 dr Hc Hs Hown Hd). reflexivity.
Qed.

(** X11: [async with driver.get() as conn] on a pool within its limit
    opens a connection that is neither [force_close] nor [recycle],
    runs the body, and on the way out closes that connection and takes
    one off [_open_connections], whether the body returned or raised,
    as long as the body left the connection with its driver; the
    outcome of the block is the outcome of the body.  Over the limit
    the block raises the pool's error, runs neither body nor exit, and
    changes nothing. *)
Theorem async_with_releases {A : Type} (self : ref) (w : World) (d : Driver.t)
    (body : ref -> M World A) :
  drivers w !! self = Some d ->
  (Driver.total_connections d <= Driver._max_connections d ->
   forall (frames : list Message.t) (r : outcome A) (w2 : World) (x : Connection.t)
          (s : WebSocket.t) (d2 : Driver.t),
     body (S (next_ref w)) (connected self false false frames d w) = (r, w2) ->
     conns w2 !! S (next_ref w) = Some x ->
     sockets w2 !! Connection._ws x = Some s ->
     Connection._driver x = Some self ->
     drivers w2 !! self = Some d2 ->
     async_with (WsOpened frames) body (Driver_get self, w)
     = (r, (ContextManager.mk None None, closed_world (S (next_ref w)) x s self d2 w2)))
  /\ (Driver._max_connections d < Driver.total_connections d ->
      forall net : connect_result,
        async_with net body (Driver_get self, w)
        = (Raise PoolExhausted, (Driver_get self, w))).
Proof.
  intros Hd. split.
  - intros Hle frames r w2 x s d2 Hbody Hx Hs Hown Hd2.
    unfold async_with. step (aenter_opened self w d frames Hd Hle).
    unfold try_finally, lift_snd. rewrite Hbody.
    rewrite (aexit_owned (ContextManager.mk (Some self) (Some (S (next_ref w)))) w2
               (S (next_ref w)) x s self d2 eq_refl Hx Hs Hown Hd2).
    reflexivity.
  - intros Hgt net. unfold async_with, __aenter__, bind, gets, lift_snd. simpl.
    unfold Driver_connect, bind. rewrite (get_driver_Some w self d Hd).
    rewrite (not_le_leb _ _ Hgt). reflexivity.
Qed.

Lemma async_with_releases_witness :
  (exists i : AsyncResponseIter.t,
     fst (async_with (WsOpened [])
            (fun conn => Connection_submit conn "g.V()" JNull "gremlin-groovy" None "eval" ""
                           None None "0b1c")
            (Driver_get pool, fresh_world)) = Ok i)
  /\ open_of pool
       (snd (snd (async_with (WsOpened [])
          (fun conn => Connection_submit conn "g.V()" JNull "gremlin-groovy" None "eval" ""
                         None None "0b1c")
          (Driver_get pool, fresh_world)))) = Some 0
  /\ closed_of 2%nat
       (snd (snd (async_with (WsOpened [])
          (fun conn => Connection_submit conn "g.V()" JNull "gremlin-groovy" None "eval" ""
                         None None "0b1c")
          (Driver_get pool, fresh_world)))) = Some true.
Proof.
  destruct (async_with_releases pool fresh_world Driver.__init__
              (fun conn => Connection_submit conn "g.V()" JNull "gremlin-groovy" None "eval" ""
                             None None "0b1c") eq_refl) as [Hin _].
  pose proof (fun Hle => Hin Hle [] _ _
                (Connection.mk 1%nat false false (Some pool) None None false)
                (WebSocket.mk false []
                   [framed (json_dumps (request_json
                      (Request.mk "0b1c" "eval" ""
                         (eval_args "g.V()" JNull "gremlin-groovy" (JDict [])))))])
                (Driver.mk [] 1 0 0 32 128) eq_refl eq_refl eq_refl eq_refl eq_refl) as H.
  rewrite H by (vm_compute; discriminate).
  split; [eexists; reflexivity |]. split; vm_compute; reflexivity.
Defined.

(** ** The response iterator, frame by frame *)

Lemma ws_receive_Some (w : World) (ws : ref) (s : WebSocket.t) (m : Message.t)
    (rest : list Message.t) :
  sockets w !! ws = Some s ->
  WebSocket.inbox s = m :: rest ->
  ws_receive ws w = (Ok (Some m), received ws s rest w).
Proof.
  intros Hs Hin. unfold ws_receive. step (get_socket_Some w ws s Hs). rewrite Hin.
  step (upd_socket_Some w ws s
          (fun s => WebSocket.mk (WebSocket.closed s) rest (WebSocket.outbox s)) Hs).
  reflexivity.
Qed.

Lemma set_response_queue_back (i : AsyncResponseIter.t) (q : list (option Message.t)) :
  AsyncResponseIter._response_queue i = [] ->
  AsyncResponseIter.set_response_queue [] (AsyncResponseIter.set_response_queue q i) = i.
Proof. destruct i. simpl. intros ->. reflexivity. Qed.

Lemma stream_wf_received (i : AsyncResponseIter.t) (w : World) (ws : ref)
    (s : WebSocket.t) (rest : list Message.t) :
  sockets w !! ws = Some s -> stream_wf i w -> stream_wf i (received ws s rest w).
Proof.
  intros Hs (c & x & d & dr & Hi & Hx & Hown & Hd & Hsock).
  exists c, x, d, dr. repeat split; try assumption. simpl.
  destruct (decide (ws = Connection._ws x)) as [<- | Hne].
  - rewrite lookup_insert_eq. eauto.
  - rewrite lookup_insert_ne by exact Hne. exact Hsock.
Qed.

(** The disposition of a well-formed stream returns; it sets [_closed]
    and leaves the queue and the socket of the iterator as they are. *)
Lemma term_returns (i : AsyncResponseIter.t) (w : World) :
  stream_wf i w ->
  exists st1 : IterState,
    term (i, w) = (Ok tt, st1)
    /\ AsyncResponseIter._closed (fst st1) = true
    /\ AsyncResponseIter._response_queue (fst st1) = AsyncResponseIter._response_queue i
    /\ AsyncResponseIter._ws (fst st1) = AsyncResponseIter._ws i.
Proof.
  intros (c & x & d & dr & Hi & Hx & Hown & Hd & [s Hs]).
  unfold term, bind, upd_self, modify, get_self, gets. simpl.
  destruct (AsyncResponseIter._force_close i).
  - unfold AsyncResponseIter_close, bind, upd_self, modify, get_self, gets, lift. simpl.
    rewrite Hi, (Connection_close_owned w c x s d dr Hx Hs Hown Hd). simpl.
    eexists. split; [reflexivity |]. auto.
  - destruct (AsyncResponseIter._recycle i); [| eexists; split; [reflexivity | auto]].
    rewrite Hi. unfold lift, Connection_reclaim, bind.
    rewrite (get_conn_Some w c x Hx), Hown.
    unfold Driver_reclaim, bind. rewrite (get_driver_Some w d dr Hd), (get_conn_Some w c x Hx).
    destruct (_ <=? _).
    + destruct (Connection._closed x);
        rewrite (upd_driver_Some w d dr _ Hd); eexists; (split; [reflexivity | auto]).
    + rewrite (bool_decide_eq_true_2 _ Hown).
      rewrite (Connection_close_owned w c x s d dr Hx Hs Hown Hd).
      erewrite upd_driver_Some by (simpl; apply lookup_insert_eq).
      eexists. split; [reflexivity | auto].
Qed.

Section OneFrame.
Variables (i : AsyncResponseIter.t) (w : World) (s : WebSocket.t).
Variables (m : Message.t) (rest : list Message.t).
Hypothesis queue_empty : AsyncResponseIter._response_queue i = [].
Hypothesis socket : sockets w !! AsyncResponseIter._ws i = Some s.
Hypothesis inbox : WebSocket.inbox s = m :: rest.

Lemma receive_step :
  lift (ws_receive (AsyncResponseIter._ws i)) (i, w)
  = (Ok (Some m), (i, received (AsyncResponseIter._ws i) s rest w)).
Proof.
  unfold lift. rewrite (ws_receive_Some w _ s m rest socket inbox). reflexivity.
Qed.

(** A 206 frame is handed to the consumer, and nothing but the socket
    changes. *)
Lemma anext_partial :
  Message.status_code m = 206 ->
  __anext__ (i, w) = (Yield m, (i, received (AsyncResponseIter._ws i) s rest w)).
Proof.
  intros Hcode. unfold __anext__, fetch_data, get_nowait. simpl fst. simpl snd.
  rewrite queue_empty. unfold _parse_data. simpl fst. rewrite receive_step.
  unfold parse_message. rewrite Hcode. simpl.
  unfold put_nowait, bind, upd_self, modify, ret. simpl.
  rewrite queue_empty. cbn [app].
  rewrite (set_response_queue_back i [Some m] queue_empty). reflexivity.
Qed.

(** A 200 or 204 frame is handed to the consumer after the disposition
    has run; the end of the stream is left in the queue. *)
Lemma anext_terminal (st1 : IterState) :
  Message.status_code m = 200 \/ Message.status_code m = 204 ->
  term (AsyncResponseIter.set_response_queue [Some m] i,
        received (AsyncResponseIter._ws i) s rest w) = (Ok tt, st1) ->
  AsyncResponseIter._response_queue (fst st1) = [Some m] ->
  __anext__ (i, w)
  = (Yield m, (AsyncResponseIter.set_response_queue [None] (fst st1), snd st1)).
Proof.
  intros Hcode Hterm Hq. unfold __anext__, fetch_data, get_nowait. simpl fst. simpl snd.
  rewrite queue_empty. unfold _parse_data. simpl fst. rewrite receive_step.
  unfold parse_message.
  assert (Hin : (Message.status_code m =? 200) || (Message.status_code m =? 206)
                || (Message.status_code m =? 204) = true)
    by (destruct Hcode as [-> | ->]; reflexivity).
  assert (Hnot : negb (Message.status_code m =? 206) = true)
    by (destruct Hcode as [-> | ->]; reflexivity).
  cbv zeta. rewrite Hin, Hnot.
  unfold put_nowait at 1. unfold bind at 1. unfold upd_self, modify at 1.
  rewrite queue_empty. cbn [app].
  unfold bind at 1. rewrite Hterm. destruct st1 as [i1 w1]. simpl in Hq.
  unfold put_nowait, upd_self, modify. simpl. rewrite Hq. reflexivity.
Qed.

(** A frame with another status runs the disposition and raises in the
    task; the queue stays empty. *)
Lemma anext_error (st1 : IterState) :
  is_error_status (Message.status_code m) ->
  term (i, received (AsyncResponseIter._ws i) s rest w) = (Ok tt, st1) ->
  AsyncResponseIter._response_queue (fst st1) = [] ->
  __anext__ (i, w)
  = (Hangs (TaskRaised (RuntimeError (decimal (Message.status_code m) +:+ " "
                                        +:+ Message.message m))), st1).
Proof.
  intros (H200 & H206 & H204 & H407) Hterm Hq.
  unfold __anext__, fetch_data, get_nowait. simpl fst. simpl snd.
  rewrite queue_empty. unfold _parse_data. simpl fst. rewrite receive_step.
  unfold parse_message. cbv zeta.
  apply Z.eqb_neq in H200, H206, H204, H407. rewrite H200, H206, H204, H407.
  cbn [orb]. unfold bind at 1. rewrite Hterm. unfold raise. simpl.
  rewrite Hq. reflexivity.
Qed.
End OneFrame.

Lemma stream_wf_queue (i : AsyncResponseIter.t) (q : list (option Message.t)) (w : World) :
  stream_wf i w -> stream_wf (AsyncResponseIter.set_response_queue q i) w.
Proof. intros H. exact H. Qed.

(** X12: from an empty queue, when the peer delivers any number of 206
    frames and then a 200 or a 204 frame, the consumer of a stream that
    still holds its pooled connection gets every one of these frames,
    in the order sent, and then the end of the stream; the pulls of the
    206 frames leave the iterator as it was, and the pull of the last
    frame is the one that sets [_closed].  Whether the iterator was
    closed before makes no difference. *)
Theorem stream_partials_then_terminal (ms : list Message.t) :
  forall (i : AsyncResponseIter.t) (w : World) (s : WebSocket.t) (m : Message.t)
         (code : Z) (rest : list Message.t),
    AsyncResponseIter._response_queue i = [] ->
    sockets w !! AsyncResponseIter._ws i = Some s ->
    WebSocket.inbox s = (map (with_status 206) ms ++ with_status code m :: rest)%list ->
    code = 200 \/ code = 204 ->
    stream_wf i w ->
    results (pulls (length ms + 2) (i, w))
    = (map Yield (map (with_status 206) ms) ++ [Yield (with_status code m); Stop])%list
    /\ closed_flags (pulls (length ms + 2) (i, w))
       = (repeat (AsyncResponseIter._closed i) (length ms) ++ [true; true])%list.
Proof.
  induction ms as [| a ms IH]; intros i w s m code rest Hq Hs Hin Hcode Hwf.
  - simpl in Hin.
    destruct (term_returns (AsyncResponseIter.set_response_queue [Some (with_status code m)] i)
                (received (AsyncResponseIter._ws i) s rest w))
      as ([i1 w1] & Hterm & Hclosed & Hq1 & _).
    { apply stream_wf_queue, stream_wf_received; assumption. }
    simpl in Hclosed, Hq1.
    assert (Hnext : __anext__ (i, w)
                    = (Yield (with_status code m),
                       (AsyncResponseIter.set_response_queue [None] i1, w1))).
    { apply (anext_terminal i w s (with_status code m) rest Hq Hs Hin (i1, w1)).
      - exact Hcode.
      - exact Hterm.
      - exact Hq1. }
    cbn [length Nat.add pulls]. rewrite Hnext.
    unfold __anext__ at 1, fetch_data, get_nowait. simpl.
    rewrite Hclosed. split; reflexivity.
  - simpl in Hin.
    pose proof (anext_partial i w s (with_status 206 a) _ Hq Hs Hin eq_refl) as Hnext.
    set (w1 := received _ s _ w) in Hnext.
    assert (Hs1 : sockets w1 !! AsyncResponseIter._ws i
                  = Some (WebSocket.mk (WebSocket.closed s)
                            (map (with_status 206) ms ++ with_status code m :: rest)
                            (WebSocket.outbox s)))
      by (simpl; apply lookup_insert_eq).
    destruct (IH i w1 _ m code rest Hq Hs1 eq_refl Hcode
                (stream_wf_received i w _ s _ Hs Hwf)) as [Hres Hflags].
    cbn [length Nat.add]. change (pulls (S (length ms + 2)) (i, w))
      with (match __anext__ (i, w) with
            | (Yield msg, st') => (Yield msg, st') :: pulls (length ms + 2) st'
            | (r, st') => [(r, st')]
            end).
    rewrite Hnext. unfold results, closed_flags in *. cbn [map fst snd repeat app].
    rewrite Hres, Hflags. split; reflexivity.
Qed.

Lemma stream_partials_then_terminal_witness :
  results (pulls 3 (stream_iter false true,
                    stream_world false true
                      [with_status 206 (Message.mk 0 (JInt 1) "" (JDict []));
                       with_status 204 (Message.mk 0 JNull "" (JDict []))]))
  = [Yield (Message.mk 206 (JInt 1) "" (JDict []));
     Yield (Message.mk 204 JNull "" (JDict [])); Stop].
Proof.
  destruct (stream_partials_then_terminal [Message.mk 0 (JInt 1) "" (JDict [])]
              (stream_iter false true)
              (stream_world false true
                 [with_status 206 (Message.mk 0 (JInt 1) "" (JDict []));
                  with_status 204 (Message.mk 0 JNull "" (JDict []))])
              (WebSocket.mk false
                 [with_status 206 (Message.mk 0 (JInt 1) "" (JDict []));
                  with_status 204 (Message.mk 0 JNull "" (JDict []))]
                 [framed (json_dumps (request_json
                    (Request.mk "5d8a6c2e-0f0b-4f53-9d58-1c54a2f0a7b1" "eval" ""
                       (eval_args "g.V()" JNull "gremlin-groovy" (JDict [])))))])
              (Message.mk 0 JNull "" (JDict [])) 204 [] eq_refl eq_refl eq_refl
              (or_intror eq_refl)) as [Hres _].
  - exists 2%nat, (Connection.mk 1%nat false true (Some pool) None None false), pool,
      (Driver.mk [] 1 0 0 32 128).
    repeat split; vm_compute; eauto.
  - exact Hres.
Defined.

(** X13: from an empty queue, a frame whose status is none of 200, 204,
    206 and 407 makes the task of a stream that still holds its pooled
    connection run the disposition and then raise [RuntimeError] with
    the status code and the message; nothing is put in the queue, so
    the error stays in the task and the pull of the consumer does not
    return. *)
Theorem error_frame_stays_in_task (n : nat) (i : AsyncResponseIter.t) (w : World)
    (s : WebSocket.t) (m : Message.t) (rest : list Message.t) :
  AsyncResponseIter._response_queue i = [] ->
  sockets w !! AsyncResponseIter._ws i = Some s ->
  WebSocket.inbox s = m :: rest ->
  is_error_status (Message.status_code m) ->
  stream_wf i w ->
  exists st1 : IterState,
    term (i, received (AsyncResponseIter._ws i) s rest w) = (Ok tt, st1)
    /\ AsyncResponseIter._response_queue (fst st1) = []
    /\ pulls (S n) (i, w)
       = [(Hangs (TaskRaised (RuntimeError (decimal (Message.status_code m) +:+ " "
                                              +:+ Message.message m))), st1)].
Proof.
  intros Hq Hs Hin Herr Hwf.
  destruct (term_returns i (received (AsyncResponseIter._ws i) s rest w))
    as (st1 & Hterm & _ & Hq1 & _).
  { apply stream_wf_received; assumption. }
  rewrite Hq in Hq1.
  exists st1. split; [exact Hterm |]. split; [exact Hq1 |].
  cbn [pulls]. rewrite (anext_error i w s m rest Hq Hs Hin st1 Herr Hterm Hq1).
  reflexivity.
Qed.

Lemma error_frame_stays_in_task_witness :
  results (pulls 5 (stream_iter false true,
                    stream_world false true [Message.mk 500 JNull "Server Error" JNull]))
  = [Hangs (TaskRaised (RuntimeError "500 Server Error"))].
Proof.
  destruct (error_frame_stays_in_task 4 (stream_iter false true)
              (stream_world false true [Message.mk 500 JNull "Server Error" JNull])
              (WebSocket.mk false [Message.mk 500 JNull "Server Error" JNull]
                 [framed (json_dumps (request_json
                    (Request.mk "5d8a6c2e-0f0b-4f53-9d58-1c54a2f0a7b1" "eval" ""
                       (eval_args "g.V()" JNull "gremlin-groovy" (JDict [])))))])
              (Message.mk 500 JNull "Server Error" JNull) [] eq_refl eq_refl eq_refl)
    as (st1 & _ & _ & Hpulls).
  - repeat split; discriminate.
  - exists 2%nat, (Connection.mk 1%nat false true (Some pool) None None false), pool,
      (Driver.mk [] 1 0 0 32 128).
    repeat split; vm_compute; eauto.
  - rewrite Hpulls. reflexivity.
Defined.

(** ** AsyncResponseIter.close and the recycling disposition *)

(** X14: [AsyncResponseIter.close] on a stream that holds a pooled
    connection sets [_closed], closes the connection whatever its
    flags (one off the owner's [_open_connections], nothing put in a
    deque) and lets go of it; a second [close] on the stream returns
    and changes nothing. *)
Theorem AsyncResponseIter_close_contract (i : AsyncResponseIter.t) (w : World) (c : ref)
    (x : Connection.t) (s : WebSocket.t) (d : ref) (dr : Driver.t) :
  AsyncResponseIter._conn i = Some c ->
  conns w !! c = Some x ->
  sockets w !! Connection._ws x = Some s ->
  Connection._driver x = Some d ->
  drivers w !! d = Some dr ->
  AsyncResponseIter_close (i, w)
  = (Ok tt, (AsyncResponseIter.set_conn None (AsyncResponseIter.set_closed true i),
             closed_world c x s d dr w))
  /\ AsyncResponseIter_close
       (AsyncResponseIter.set_conn None (AsyncResponseIter.set_closed true i),
        closed_world c x s d dr w)
     = (Ok tt, (AsyncResponseIter.set_conn None (AsyncResponseIter.set_closed true i),
                closed_world c x s d dr w)).
Proof.
  intros Hi Hx Hs Hown Hd. split.
  - unfold AsyncResponseIter_close, bind, upd_self, modify, get_self, gets, lift. simpl.
    rewrite Hi, (Connection_close_owned w c x s d dr Hx Hs Hown Hd). reflexivity.
  - reflexivity.
Qed.

Lemma AsyncResponseIter_close_contract_witness :
  closed_of 2%nat
    (snd (snd (AsyncResponseIter_close (stream_iter false true, stream_world false true []))))
  = Some true
  /\ reclaimed_of pool
       (snd (snd (AsyncResponseIter_close
                    (stream_iter false true, stream_world false true []))))
     = Some [].
Proof.
  destruct (AsyncResponseIter_close_contract (stream_iter false true)
              (stream_world false true []) 2%nat
              (Connection.mk 1%nat false true (Some pool) None None false)
              (WebSocket.mk false []
                 [framed (json_dumps (request_json
                    (Request.mk "5d8a6c2e-0f0b-4f53-9d58-1c54a2f0a7b1" "eval" ""
                       (eval_args "g.V()" JNull "gremlin-groovy" (JDict [])))))])
              pool (Driver.mk [] 1 0 0 32 128) eq_refl eq_refl eq_refl eq_refl eq_refl)
    as [Hrun _].
  rewrite Hrun. split; reflexivity.
Defined.

(** X15: the disposition of a stream marked [recycle] and not
    [force_close], whose connection is live and whose pool is within
    its limit, puts the connection at the end of the deque of its
    driver; when every connection before it there is closed (or none
    is), the next [recycle()] on that driver returns this same
    connection. *)
Theorem term_then_recycle (i : AsyncResponseIter.t) (w : World) (c : ref)
    (x : Connection.t) (d : ref) (dr : Driver.t) (force_close recycle : bool)
    (net : connect_result) :
  AsyncResponseIter._force_close i = false ->
  AsyncResponseIter._recycle i = true ->
  AsyncResponseIter._conn i = Some c ->
  conns w !! c = Some x ->
  Connection._closed x = false ->
  Connection._driver x = Some d ->
  drivers w !! d = Some dr ->
  Driver.total_connections dr <= Driver.max_connections dr ->
  Forall (closed_in w) (Driver._reclaimed dr) ->
  term (i, w)
  = (Ok tt, (AsyncResponseIter.set_closed true i,
             set_drivers
               (insert d (Driver.set_reclaimed (Driver._reclaimed dr ++ [c]) dr)) w))
  /\ (term ;;; lift (Driver_recycle d force_close recycle net)) (i, w)
     = (Ok c, (AsyncResponseIter.set_closed true i,
               set_drivers (insert d (discarded (length (Driver._reclaimed dr)) [] dr)) w)).
Proof.
  intros Hfc Hrc Hi Hx Hlive Hown Hd Hle Hq.
  assert (Hterm : term (i, w)
            = (Ok tt, (AsyncResponseIter.set_closed true i,
                 set_drivers
                   (insert d (Driver.set_reclaimed (Driver._reclaimed dr ++ [c]) dr)) w))).
  { unfold term, bind, upd_self, modify, get_self, gets. simpl.
    rewrite Hfc, Hrc, Hi. unfold lift, Connection_reclaim, bind.
    rewrite (get_conn_Some w c x Hx), Hown.
    rewrite (Driver_reclaim_live w d c dr x Hd Hx Hle Hlive). reflexivity. }
  split; [exact Hterm |].
  rewrite (bind_Ok _ _ _ _ _ Hterm). unfold lift.
  rewrite (Driver_recycle_after_reclaim w d c dr x force_close recycle net Hd Hx Hlive Hq).
  reflexivity.
Qed.

Lemma term_then_recycle_witness :
  (term ;;; lift (Driver_recycle pool false true (WsOpened [])))
    (stream_iter false true, stream_world false true [])
  = (Ok 2%nat, (AsyncResponseIter.set_closed true (stream_iter false true),
                stream_world false true [])).
Proof.
  destruct (term_then_recycle (stream_iter false true) (stream_world false true []) 2%nat
              (Connection.mk 1%nat false true (Some pool) None None false)
              pool (Driver.mk [] 1 0 0 32 128) false true (WsOpened [])
              eq_refl eq_refl eq_refl eq_refl eq_refl eq_refl eq_refl) as [_ Hround].
  - vm_compute. discriminate.
  - constructor.
  - rewrite Hround. vm_compute. reflexivity.
Defined.

Lemma close_loop_returns_empty (self : ref) (q : list ref) :
  forall (w w' : World) (d : Driver.t),
    drivers w !! self = Some d ->
    Driver._reclaimed d = q ->
    close_loop self q w = (Ok tt, w') ->
    exists d' : Driver.t, drivers w' !! self = Some d' /\ Driver._reclaimed d' = [].
Proof.
  induction q as [| c q IH]; intros w w' d Hd Hq Hrun.
  - simpl in Hrun. injection Hrun as <-. eauto.
  - simpl in Hrun.
    rewrite (bind_Ok _ _ _ _ _ (upd_driver_Some w self d (Driver.set_reclaimed q) Hd)) in Hrun.
    set (w1 := set_drivers _ w) in Hrun.
    assert (H1 : drivers w1 !! self = Some (Driver.set_reclaimed q d))
      by (simpl; apply lookup_insert_eq).
    assert (Hk : keeps same_deque w1 (snd (Connection_close c w1))).
    { apply Connection_close_keeps; try reflexivity.
      - exact same_deque_trans.
      - apply keeps_refl. reflexivity. }
    unfold bind in Hrun at 1.
    destruct (Connection_close c w1) as [[u | e] w2]; [| discriminate].
    destruct (Hk self _ H1) as (d2 & Hd2 & Hsame).
    apply (IH w2 w' d2 Hd2 Hsame Hrun).
Qed.

(** X16: a [Driver.close] that has returned leaves the driver without
    its client session, so a second [Driver.close] raises
    [AttributeError] and changes nothing. *)
Theorem Driver_close_twice (self : ref) (st st1 : DriverState) :
  Driver_close self st = (Ok tt, st1) ->
  Driver_close self st1
  = (Raise (AttributeError "'NoneType' object has no attribute 'close'"), st1).
Proof.
  destruct st as [rest w]. unfold Driver_close at 1.
  unfold bind at 1. unfold lift_snd at 1. unfold get_driver.
  destruct (drivers w !! self) as [d |] eqn:Hd; simpl from_store; [| discriminate].
  unfold ret at 1. unfold bind at 1. unfold lift_snd at 1.
  destruct (close_loop self (Driver._reclaimed d) w) as [[u | e] w'] eqn:Hloop;
    [| discriminate].
  destruct u.
  destruct (close_loop_returns_empty self _ w w' d Hd eq_refl Hloop) as (d' & Hd' & Hq').
  unfold bind, gets, upd_fst, modify. simpl.
  destruct (DriverRest._client_session rest); [| discriminate].
  intros [= <-].
  unfold Driver_close, bind, lift_snd, gets. simpl.
  rewrite (get_driver_Some w' self d' Hd'), Hq'. reflexivity.
Qed.

Lemma Driver_close_twice_witness :
  fst (Driver_close pool (snd (Driver_close pool (DriverRest.__init__, idle_pool_world))))
  = Raise (AttributeError "'NoneType' object has no attribute 'close'").
Proof.
  rewrite (Driver_close_twice pool (DriverRest.__init__, idle_pool_world)
             (snd (Driver_close pool (DriverRest.__init__, idle_pool_world)))).
  - reflexivity.
  - vm_compute. reflexivity.
Defined.

(** ** What the operations do to connections and sockets *)

Section Evolves.
Variable Rc : Connection.t -> Connection.t -> Prop.
Variable Rs : WebSocket.t -> WebSocket.t -> Prop.
Hypothesis Rc_refl : forall x, Rc x x.
Hypothesis Rc_trans : forall a b c, Rc a b -> Rc b c -> Rc a c.
Hypothesis Rs_refl : forall s, Rs s s.
Hypothesis Rs_trans : forall a b c, Rs a b -> Rs b c -> Rs a c.

Lemma evolves_refl (w : World) : evolves Rc Rs w w.
Proof. split; [lia |]. split; eauto. Qed.

Lemma evolves_trans (w1 w2 w3 : World) :
  evolves Rc Rs w1 w2 -> evolves Rc Rs w2 w3 -> evolves Rc Rs w1 w3.
Proof.
  intros (Hn12 & Hc12 & Hs12) (Hn23 & Hc23 & Hs23). split; [lia |]. split.
  - intros c x Hlt Hx. destruct (Hc12 c x Hlt Hx) as (x2 & Hx2 & HR2).
    destruct (Hc23 c x2 ltac:(lia) Hx2) as (x3 & Hx3 & HR3). eauto.
  - intros r s Hlt Hs. destruct (Hs12 r s Hlt Hs) as (s2 & Hs2 & HR2).
    destruct (Hs23 r s2 ltac:(lia) Hs2) as (s3 & Hs3 & HR3). eauto.
Qed.

Lemma evolves_step (w0 w w' : World) :
  evolves Rc Rs w w' -> evolves Rc Rs w0 w -> evolves Rc Rs w0 w'.
Proof. intros H H0. apply (evolves_trans _ w); assumption. Qed.

Lemma evolves_same_objects (w w' : World) :
  conns w' = conns w -> sockets w' = sockets w -> next_ref w' = next_ref w ->
  evolves Rc Rs w w'.
Proof.
  intros Ec Es En. split; [lia |]. rewrite Ec, Es. split; eauto.
Qed.

Lemma upd_driver_evolves (r : ref) (f : Driver.t -> Driver.t) (w : World) :
  evolves Rc Rs w (snd (upd_driver r f w)).
Proof.
  unfold upd_driver, bind, get_driver.
  destruct (drivers w !! r); simpl; apply evolves_same_objects; reflexivity.
Qed.

Lemma upd_conn_evolves (r : ref) (f : Connection.t -> Connection.t) (w : World) :
  (forall x, Rc x (f x)) -> evolves Rc Rs w (snd (upd_conn r f w)).
Proof.
  intros Hf. unfold upd_conn, bind, get_conn.
  destruct (conns w !! r) as [x |] eqn:Hx; simpl; [| apply evolves_refl].
  split; [simpl; lia |]. split; [| eauto].
  intros c y _ Hy. simpl. destruct (decide (r = c)) as [<- | Hne].
  - rewrite lookup_insert_eq. rewrite Hx in Hy. injection Hy as <-. eauto.
  - rewrite lookup_insert_ne by exact Hne. eauto.
Qed.

Lemma upd_socket_evolves (r : ref) (f : WebSocket.t -> WebSocket.t) (w : World) :
  (forall s, sockets w !! r = Some s -> Rs s (f s)) ->
  evolves Rc Rs w (snd (upd_socket r f w)).
Proof.
  intros Hf. unfold upd_socket, bind, get_socket.
  destruct (sockets w !! r) as [s |] eqn:Hs; simpl; [| apply evolves_refl].
  split; [simpl; lia |]. split; [eauto |].
  intros r' t _ Ht. simpl. destruct (decide (r = r')) as [<- | Hne].
  - rewrite lookup_insert_eq. rewrite Hs in Ht. injection Ht as <-. eauto.
  - rewrite lookup_insert_ne by exact Hne. eauto.
Qed.

Lemma new_socket_evolves (s : WebSocket.t) (w : World) :
  evolves Rc Rs w (snd (new_socket s w)).
Proof.
  split; [simpl; lia |]. split; [eauto |].
  intros r t Hlt Ht. simpl. rewrite lookup_insert_ne by lia. eauto.
Qed.

Lemma new_conn_evolves (x : Connection.t) (w : World) :
  evolves Rc Rs w (snd (new_conn x w)).
Proof.
  split; [simpl; lia |]. split; [| eauto].
  intros c y Hlt Hy. simpl. rewrite lookup_insert_ne by lia. eauto.
Qed.

Section Closing.
Hypothesis Rc_closed : forall x, Rc x (Connection.set_closed true x).
Hypothesis Rc_driver : forall x, Rc x (Connection.set_driver None x).
Hypothesis Rs_closed :
  forall s, Rs s (WebSocket.mk true (WebSocket.inbox s) (WebSocket.outbox s)).

Lemma Connection_close_evolves (c : ref) (w0 w : World) :
  evolves Rc Rs w0 w -> evolves Rc Rs w0 (snd (Connection_close c w)).
Proof.
  intros H0. unfold Connection_close.
  apply bind_post; [rewrite get_conn_same; exact H0 |]. intros x w1 H1.
  apply bind_post.
  { apply (evolves_step _ w1); [| exact H1]. apply upd_socket_evolves.
    intros s _. apply Rs_closed. }
  intros _ w2 H2. apply bind_post.
  { apply (evolves_step _ w2); [| exact H2]. apply upd_conn_evolves, Rc_closed. }
  intros _ w3 H3. destruct (Connection._driver x) as [d |]; [| exact H3].
  apply bind_post.
  - apply (evolves_step _ w3); [| exact H3]. apply upd_driver_evolves.
  - intros _ w4 H4. apply (evolves_step _ w4); [| exact H4].
    apply upd_conn_evolves, Rc_driver.
Qed.

Lemma close_loop_evolves (self : ref) (q : list ref) :
  forall w0 w : World, evolves Rc Rs w0 w -> evolves Rc Rs w0 (snd (close_loop self q w)).
Proof.
  induction q as [| c q IH]; intros w0 w H0; simpl; [exact H0 |].
  apply bind_post.
  { apply (evolves_step _ w); [| exact H0]. apply upd_driver_evolves. }
  intros _ w1 H1. apply bind_post; [apply Connection_close_evolves; exact H1 |].
  intros _ w2 H2. apply IH. exact H2.
Qed.

Lemma Driver_close_evolves (self : ref) (w0 : World) (st : DriverState) :
  evolves Rc Rs w0 (snd st) -> evolves Rc Rs w0 (snd (snd (Driver_close self st))).
Proof.
  intros H. unfold Driver_close.
  apply (bind_post (fun st' => evolves Rc Rs w0 (snd st'))).
  { apply lift_snd_post. rewrite get_driver_same. exact H. }
  intros d st1 H1.
  apply (bind_post (fun st' => evolves Rc Rs w0 (snd st'))).
  { apply lift_snd_post. apply close_loop_evolves; assumption. }
  intros _ st2 H2.
  apply (bind_post (fun st' => evolves Rc Rs w0 (snd st'))); [exact H2 |].
  intros rest st3 H3.
  destruct (DriverRest._client_session rest); [| exact H3].
  apply (bind_post (fun st' => evolves Rc Rs w0 (snd st'))).
  { rewrite upd_fst_world. exact H3. }
  intros _ st4 H4.
  apply (bind_post (fun st' => evolves Rc Rs w0 (snd st'))).
  { rewrite upd_fst_world. exact H4. }
  intros _ st5 H5. rewrite upd_fst_world. exact H5.
Qed.

Lemma Driver_reclaim_evolves (self conn : ref) (w0 w : World) :
  evolves Rc Rs w0 w -> evolves Rc Rs w0 (snd (Driver_reclaim self conn w)).
Proof.
  intros H0. unfold Driver_reclaim.
  apply bind_post; [rewrite get_driver_same; exact H0 |]. intros d w1 H1.
  apply bind_post; [rewrite get_conn_same; exact H1 |]. intros c w2 H2.
  destruct (_ <=? _).
  - destruct (Connection._closed c); apply (evolves_step _ w2); try exact H2;
      apply upd_driver_evolves.
  - destruct (bool_decide _); [| exact H2].
    apply bind_post; [apply Connection_close_evolves; exact H2 |]. intros _ w3 H3.
    apply (evolves_step _ w3); [| exact H3]. apply upd_driver_evolves.
Qed.

Lemma Connection_reclaim_evolves (c : ref) (w0 w : World) :
  evolves Rc Rs w0 w -> evolves Rc Rs w0 (snd (Connection_reclaim c w)).
Proof.
  intros H0. unfold Connection_reclaim.
  apply bind_post; [rewrite get_conn_same; exact H0 |]. intros x w1 H1.
  destruct (Connection._driver x); [apply Driver_reclaim_evolves |]; exact H1.
Qed.

Lemma recycle_loop_evolves (self : ref) (q : list ref) :
  forall (conn0 : option ref) (w0 w : World),
    evolves Rc Rs w0 w -> evolves Rc Rs w0 (snd (recycle_loop self q conn0 w)).
Proof.
  induction q as [| c q IH]; intros conn0 w0 w H0; simpl; [exact H0 |].
  apply bind_post.
  { apply (evolves_step _ w); [| exact H0]. apply upd_driver_evolves. }
  intros _ w1 H1. apply bind_post; [rewrite get_conn_same; exact H1 |]. intros x w2 H2.
  destruct (negb _); [exact H2 |].
  apply bind_post.
  - apply (evolves_step _ w2); [| exact H2]. apply upd_driver_evolves.
  - intros _ w3 H3. apply IH. exact H3.
Qed.

Lemma Driver_connect_evolves (self : ref) (fc rc : bool) (net : connect_result)
    (w0 w : World) :
  evolves Rc Rs w0 w -> evolves Rc Rs w0 (snd (Driver_connect self fc rc net w)).
Proof.
  intros H0. unfold Driver_connect.
  apply bind_post; [rewrite get_driver_same; exact H0 |]. intros d w1 H1.
  destruct (_ <=? _); [| exact H1].
  apply bind_post.
  { apply (evolves_step _ w1); [| exact H1]. apply upd_driver_evolves. }
  intros _ w2 H2. apply try_finally_post.
  - apply bind_post.
    + destruct net as [frames | e]; [| exact H2].
      apply (evolves_step _ w2); [| exact H2]. apply new_socket_evolves.
    + intros ws w3 H3. apply bind_post.
      * apply (evolves_step _ w3); [| exact H3]. apply upd_driver_evolves.
      * intros _ w4 H4. apply (evolves_step _ w4); [| exact H4]. apply new_conn_evolves.
  - intros w3 H3. apply (evolves_step _ w3); [| exact H3]. apply upd_driver_evolves.
Qed.

Lemma Driver_recycle_evolves (self : ref) (fc rc : bool) (net : connect_result)
    (w0 w : World) :
  evolves Rc Rs w0 w -> evolves Rc Rs w0 (snd (Driver_recycle self fc rc net w)).
Proof.
  intros H0. unfold Driver_recycle.
  apply bind_post; [rewrite get_driver_same; exact H0 |]. intros d w1 H1.
  apply bind_post.
  - destruct (Driver._reclaimed d) as [| c q].
    + destruct (_ <? _); [| exact H1].
      apply bind_post; [apply Driver_connect_evolves; exact H1 |].
      intros a w2 H2. exact H2.
    + apply recycle_loop_evolves. exact H1.
  - intros [c |] w2 H2; exact H2.
Qed.

Lemma run_op_evolves (self : ref) (o : pool_op) (w0 w : World) :
  evolves Rc Rs w0 w -> evolves Rc Rs w0 (snd (run_op self o w)).
Proof.
  intros H0. destruct o as [fc rc net | fc rc net | c | c]; simpl.
  - apply bind_post; [apply Driver_connect_evolves; exact H0 | auto].
  - apply bind_post; [apply Driver_recycle_evolves; exact H0 | auto].
  - apply Driver_reclaim_evolves. exact H0.
  - apply Connection_close_evolves. exact H0.
Qed.

Lemma run_ops_evolves (self : ref) (os : list pool_op) :
  forall w0 w : World, evolves Rc Rs w0 w -> evolves Rc Rs w0 (snd (run_ops self os w)).
Proof.
  induction os as [| o os IH]; intros w0 w H0; simpl; [exact H0 |].
  pose proof (run_op_evolves self o w0 w H0) as H1.
  destruct (run_op self o w) as [r w1]. simpl in H1.
  pose proof (IH w0 w1 H1) as H2.
  destruct (run_ops self os w1) as [rs w2]. exact H2.
Qed.

Section Receiving.
Hypothesis Rs_received :
  forall (s : WebSocket.t) (m : Message.t) (rest : list Message.t),
    WebSocket.inbox s = m :: rest ->
    Rs s (WebSocket.mk (WebSocket.closed s) rest (WebSocket.outbox s)).
Variable w0 : World.

Local Abbreviation inv := (fun st : IterState => evolves Rc Rs w0 (snd st)).

Lemma lift_evolves {A} (m : M World A) (st : IterState) :
  (forall w, evolves Rc Rs w0 w -> evolves Rc Rs w0 (snd (m w))) ->
  inv st -> inv (snd (lift m st)).
Proof.
  intros Hm Hk. destruct st as [i w]. unfold lift. simpl in *.
  specialize (Hm w Hk). destruct (m w) as [r w']. exact Hm.
Qed.

Lemma upd_self_evolves (f : AsyncResponseIter.t -> AsyncResponseIter.t) (st : IterState) :
  inv st -> inv (snd (upd_self f st)).
Proof. destruct st as [i w]. auto. Qed.

Lemma ws_receive_evolves (ws : ref) (w : World) :
  evolves Rc Rs w0 w -> evolves Rc Rs w0 (snd (ws_receive ws w)).
Proof.
  intros H. unfold ws_receive, bind, get_socket.
  destruct (sockets w !! ws) as [s |] eqn:Hs; simpl; [| exact H].
  destruct (WebSocket.inbox s) as [| m rest] eqn:Hin; [exact H |].
  pose proof (upd_socket_evolves ws
                (fun s => WebSocket.mk (WebSocket.closed s) rest (WebSocket.outbox s)) w) as Hu.
  destruct (upd_socket ws _ w) as [[u | e] w1]; simpl in *;
    (apply (evolves_step _ w); [apply Hu | exact H]);
    intros t Ht; rewrite Hs in Ht; injection Ht as <-; apply (Rs_received s m rest Hin).
Qed.

Lemma AsyncResponseIter_close_evolves (st : IterState) :
  inv st -> inv (snd (AsyncResponseIter_close st)).
Proof.
  intros H. unfold AsyncResponseIter_close.
  apply bind_post; [apply upd_self_evolves; exact H |]. intros _ st1 H1.
  rewrite get_self_bind.
  destruct (AsyncResponseIter._conn (fst st1)) as [c |]; [| exact H1].
  apply bind_post.
  - apply lift_evolves; [| exact H1]. intros w. apply Connection_close_evolves.
  - intros _ st3 H3. apply upd_self_evolves. exact H3.
Qed.

Lemma term_evolves (st : IterState) : inv st -> inv (snd (term st)).
Proof.
  intros H. unfold term.
  apply bind_post; [apply upd_self_evolves; exact H |]. intros _ st1 H1.
  rewrite get_self_bind.
  destruct (AsyncResponseIter._force_close (fst st1)).
  - apply AsyncResponseIter_close_evolves. exact H1.
  - destruct (AsyncResponseIter._recycle (fst st1)); [| exact H1].
    destruct (AsyncResponseIter._conn (fst st1)) as [c |]; [| exact H1].
    apply lift_evolves; [| exact H1]. intros w'. apply Connection_reclaim_evolves.
Qed.

Lemma parse_message_evolves (message : Message.t) (st : IterState) :
  inv st -> inv (snd (parse_message message st)).
Proof.
  intros H. unfold parse_message. cbv zeta.
  destruct (_ || _).
  - apply bind_post; [apply upd_self_evolves; exact H |]. intros _ st1 H1.
    destruct (negb _); [| exact H1].
    apply bind_post; [apply term_evolves; exact H1 |]. intros _ st2 H2.
    apply upd_self_evolves. exact H2.
  - destruct (_ =? 407).
    + unfold getattr_self. destruct (existsb _ _); exact H.
    + apply bind_post; [apply term_evolves; exact H |]. intros _ st1 H1. exact H1.
Qed.

Lemma _parse_data_evolves (st : IterState) : inv st -> inv (snd (_parse_data st)).
Proof.
  intros H. unfold _parse_data.
  pose proof (lift_evolves (ws_receive (AsyncResponseIter._ws (fst st))) st
                (ws_receive_evolves _) H) as H1.
  destruct (lift _ st) as [[[message |] | e] st1]; simpl in H1; try exact H1.
  pose proof (parse_message_evolves message st1 H1) as H2.
  destruct (parse_message message st1) as [[u | e] st2]; exact H2.
Qed.

Lemma get_nowait_world (st st' : IterState) (x : option Message.t) :
  get_nowait st = Some (x, st') -> snd st' = snd st.
Proof.
  unfold get_nowait. destruct (AsyncResponseIter._response_queue (fst st)); [discriminate |].
  intros [= _ <-]. reflexivity.
Qed.

Lemma __anext___evolves (st : IterState) : inv st -> inv (snd (__anext__ st)).
Proof.
  intros H. unfold __anext__, fetch_data.
  destruct (get_nowait st) as [[[msg |] st'] |] eqn:E.
  - simpl. rewrite (get_nowait_world st st' _ E). exact H.
  - simpl. rewrite (get_nowait_world st st' _ E). exact H.
  - pose proof (_parse_data_evolves st H) as H1.
    destruct (_parse_data st) as [task st1]. simpl in H1.
    destruct (get_nowait st1) as [[[msg |] st2] |] eqn:E1; simpl;
      try rewrite (get_nowait_world st1 st2 _ E1); exact H1.
Qed.

Lemma pulls_evolves (n : nat) :
  forall st : IterState, inv st -> Forall (fun p => inv (snd p)) (pulls n st).
Proof.
  induction n as [| n IH]; intros st H; simpl; [constructor |].
  pose proof (__anext___evolves st H) as H1.
  destruct (__anext__ st) as [[msg | | task] st1]; simpl in H1.
  - constructor; [exact H1 | apply IH; exact H1].
  - constructor; [exact H1 | constructor].
  - constructor; [exact H1 | constructor].
Qed.
End Receiving.
End Closing.
End Evolves.

Lemma conn_forward_refl (x : Connection.t) : conn_forward x x.
Proof. repeat split; auto. Qed.

Lemma conn_forward_trans (a b c : Connection.t) :
  conn_forward a b -> conn_forward b c -> conn_forward a c.
Proof.
  unfold conn_forward. intros (? & ? & ? & ?) (? & ? & ? & ?).
  repeat split; try congruence. auto.
Qed.

Lemma socket_quiet_refl (s : WebSocket.t) : socket_quiet s s.
Proof. split; [reflexivity |]. split; [auto | reflexivity]. Qed.

Lemma socket_quiet_trans (a b c : WebSocket.t) :
  socket_quiet a b -> socket_quiet b c -> socket_quiet a c.
Proof.
  unfold socket_quiet. intros (? & ? & ?) (? & ? & ?).
  split; [congruence |]. split; [auto | etrans; eassumption].
Qed.

Lemma socket_sent_refl (s : WebSocket.t) : socket_sent s s.
Proof. split; [reflexivity |]. split; reflexivity. Qed.

Lemma socket_sent_trans (a b c : WebSocket.t) :
  socket_sent a b -> socket_sent b c -> socket_sent a c.
Proof.
  unfold socket_sent. intros (? & ? & ?) (? & ? & ?).
  split; [etrans; eassumption |]. split; congruence.
Qed.

Lemma Connection_submit_evolves (self : ref) (gremlin : string) (bindings : json)
    (lang : string) (aliases : option json) (op processor : string)
    (session : option string) (request_id : option string) (uuid4 : string) (w : World) :
  evolves eq socket_sent w
    (snd (Connection_submit self gremlin bindings lang aliases op processor session
            request_id uuid4 w)).
Proof.
  assert (Ht : forall a b c : Connection.t, a = b -> b = c -> a = c) by congruence.
  pose proof (evolves_refl eq socket_sent (fun x => eq_refl) socket_sent_refl w) as H0.
  unfold Connection_submit.
  apply (bind_post (evolves eq socket_sent w)); [rewrite get_conn_same; exact H0 |].
  intros c w1 H1. cbv zeta.
  apply (bind_post (evolves eq socket_sent w)); [rewrite prepare_message_same; exact H1 |].
  intros message w2 H2.
  apply (bind_post (evolves eq socket_sent w)); [| auto].
  apply (evolves_step eq socket_sent Ht socket_sent_trans _ w2); [| exact H2].
  apply (upd_socket_evolves eq socket_sent (fun x => eq_refl) socket_sent_refl).
  intros s _. split; [| split; reflexivity]. simpl. apply prefix_app_r. reflexivity.
Qed.

(** X17: on the connections and sockets that exist before the call, no
    [connect], [recycle], [reclaim] or [Connection.close], no pull of a
    response iterator and no [Driver.close] reopens a closed
    connection or a closed socket, changes the socket or the flags of a
    connection, writes to a socket, or brings back a frame already
    received: [closed] only goes from false to true and the frames to
    come are only consumed from the front.  [submit] changes no
    connection; on sockets it only appends to what was sent. *)
Theorem objects_only_move_forward :
  (forall (self : ref) (os : list pool_op) (w : World),
     evolves conn_forward socket_quiet w (snd (run_ops self os w)))
  /\ (forall (n : nat) (st : IterState),
        Forall (fun p => evolves conn_forward socket_quiet (snd st) (snd (snd p)))
          (pulls n st))
  /\ (forall (self : ref) (st : DriverState),
        evolves conn_forward socket_quiet (snd st) (snd (snd (Driver_close self st))))
  /\ (forall (self : ref) (gremlin : string) (bindings : json) (lang : string)
        (aliases : option json) (op processor : string) (session : option string)
        (request_id : option string) (uuid4 : string) (w : World),
        evolves eq socket_sent w
          (snd (Connection_submit self gremlin bindings lang aliases op processor session
                  request_id uuid4 w))).
Proof.
  assert (Hcl : forall x, conn_forward x (Connection.set_closed true x))
    by (intros; repeat split).
  assert (Hdr : forall x, conn_forward x (Connection.set_driver None x))
    by (intros; repeat split; auto).
  assert (Hsc : forall s, socket_quiet s
                  (WebSocket.mk true (WebSocket.inbox s) (WebSocket.outbox s)))
    by (intros; split; [reflexivity |]; split; [auto | reflexivity]).
  assert (Hrx : forall s m rest, WebSocket.inbox s = m :: rest ->
                  socket_quiet s (WebSocket.mk (WebSocket.closed s) rest (WebSocket.outbox s))).
  { intros s m rest Hin. split; [reflexivity |]. split; [auto |]. simpl. rewrite Hin.
    apply suffix_cons_r. reflexivity. }
  split; [| split; [| split]].
  - intros self os w.
    apply (run_ops_evolves conn_forward socket_quiet conn_forward_refl conn_forward_trans
             socket_quiet_refl socket_quiet_trans Hcl Hdr Hsc).
    apply evolves_refl; [exact conn_forward_refl | exact socket_quiet_refl].
  - intros n st.
    apply (pulls_evolves conn_forward socket_quiet conn_forward_refl conn_forward_trans
             socket_quiet_refl socket_quiet_trans Hcl Hdr Hsc Hrx (snd st) n st).
    apply evolves_refl; [exact conn_forward_refl | exact socket_quiet_refl].
  - intros self st.
    apply (Driver_close_evolves conn_forward socket_quiet conn_forward_refl
             conn_forward_trans socket_quiet_refl socket_quiet_trans Hcl Hdr Hsc).
    apply evolves_refl; [exact conn_forward_refl | exact socket_quiet_refl].
  - intros. apply Connection_submit_evolves.
Qed.
